(** * RefOS process server: global state and capability helpers

    A shallow embedding of [impl/apps/process_server/src/state.c].

    The functions of [state.c] are written against the seL4 kernel and the
    seL4 support libraries (vka, vspace, simple) and RefOS' own [chash].
    None of these is part of [state.c]; each is given here as a small
    executable model over an explicit [world] (the process server's global
    state, the kernel objects it manipulates, and a log of the library and
    kernel requests issued).  The functions of [state.c] themselves are
    translated statement by statement into a state monad over that world,
    with one extra outcome, [Fault], for an access the C program must not
    make (a store through an unmapped address, a read past a buffer). *)

From Stdlib Require Import ZArith List Lia.
From Stdlib.Strings Require Import Byte.
From stdpp Require Import base option list gmap.

Local Open Scope Z_scope.

(** ** Machine integers *)

(** Value of a C [uint32_t] expression. *)
Definition uint32 (z : Z) : Z := z mod 2 ^ 32.

(** Value of a C [int] expression on the 32-bit targets of RefOS, with the
    two's complement wrap-around the compilers implement. *)
Definition sint32 (z : Z) : Z := (z + 2 ^ 31) mod 2 ^ 32 - 2 ^ 31.

(** Value of an unsigned [w]-bit expression ([size_t], pointers). *)
Definition wrap (w : Z) (z : Z) : Z := z mod 2 ^ w.

(** ** Constants of libsel4 and RefOS used by [state.c] *)

Definition seL4_PageBits : Z := 12.

(** Modelled from the spec: [REFOS_PAGE_SIZE] is one page of the standard
    physical page size, [1 << seL4_PageBits]. *)
Definition REFOS_PAGE_SIZE : Z := Z.shiftl 1 seL4_PageBits.

Definition seL4_CanWrite : Z := 1.
Definition seL4_CanRead : Z := 2.
Definition seL4_CanGrant : Z := 4.
Definition seL4_AllRights : Z := 7.

(** Error codes of the kernel, as returned by the seL4 invocations and
    passed through by vka and simple. *)
Inductive seL4_Error :=
  | seL4_NoError
  | seL4_InvalidArgument
  | seL4_InvalidCapability
  | seL4_IllegalOperation
  | seL4_RangeError
  | seL4_AlignmentError
  | seL4_FailedLookup
  | seL4_TruncatedMessage
  | seL4_DeleteFirst
  | seL4_RevokeFirst
  | seL4_NotEnoughMemory.

(** The C test [if (error)]. *)
Definition is_error (e : seL4_Error) : bool :=
  match e with seL4_NoError => false | _ => true end.

(** Modelled from the spec: the status codes of the frame transfer
    operations (RefOS' [refos_error] enumeration). *)
Inductive refos_error := ESUCCESS | ENOMEM | EINVALIDPARAM.

(** ** Capabilities and capability slot paths *)

Inductive cap :=
  | EndpointCap (ep : Z) (rights : Z) (badge : Z)
  | FrameCap (paddr : Z) (sizeBits : Z) (rights : Z)
  | IRQHandlerCap (irq : Z).

(** Modelled from the spec: a capability slot path is the triple of the root
    capability-space reference, the slot index and the depth. *)
Record cspacepath_t := mk_path { capPtr : Z; capDepth : Z; root : Z }.

(** [memset(&path, 0, sizeof(cspacepath_t))] *)
Definition path_zero : cspacepath_t := mk_path 0 0 0.

Definition set_capPtr (p : cspacepath_t) (c : Z) : cspacepath_t :=
  mk_path c (capDepth p) (root p).

(** The number of bits of the badge of a capability on the 32-bit kernels
    RefOS runs on. *)
Definition seL4_BadgeBits : Z := 28.

(** [seL4_CapData_Badge_new(seL4_Uint32 Badge)]: the capability data that
    carries a badge, given as the badge a capability minted with it gets.
    The function is libsel4's and not part of [state.c].  Its parameter is
    unsigned: the [int] that [procserv_mint_badge] passes is converted (-1
    arrives as 4294967295), and the badge field of the data keeps the low
    [seL4_BadgeBits] bits of it. *)
Definition seL4_CapData_Badge_new (badge : Z) : Z :=
  Z.land (uint32 badge) (Z.ones seL4_BadgeBits).
Arguments seL4_CapData_Badge_new : simpl never.

(** ** The world *)

(** Requests issued to the allocator, the address space manager, the device
    directory and the kernel, most recent first. *)
Inductive event :=
  | EvCSpaceAlloc (slot : option Z)
  | EvCSpaceFree (slot : Z)
  | EvCNodeMint (dest src rights badge : Z) (r : seL4_Error)
  | EvGetFrameCap (paddr sizeBits dest : Z) (r : seL4_Error)
  | EvIRQControlGet (irq dest : Z) (r : seL4_Error)
  | EvMapPages (frame addr : Z)
  | EvUnmapPages (addr : Z)
  | EvUnifyInstruction (frame start_offset end_offset : Z).

(** The kernel objects the process server acts on. *)
Record kernel_state := mk_kernel {
  k_cnode : gmap Z cap;            (* the server's CNode: slot -> capability *)
  k_page_table : gmap Z (Z * Z);   (* virtual page number -> frame base, rights *)
  k_pmem : gmap Z byte;            (* physical memory, byte addressed *)
  k_irq_max : Z;                   (* highest interrupt line of the platform *)
  k_irq_issued : gset Z            (* lines whose handler has been handed out *)
}.

(** The allocator behind the vka interface: the pool of free capability
    slots and the description of the capability space they live in. *)
Record vka_t := mk_vka {
  vka_free : list Z;
  vka_root : Z;
  vka_depth : Z
}.

(** [struct procserv_state], restricted to the fields [state.c] reads or
    writes after initialisation. *)
Record procserv_state := mk_procserv {
  vka : vka_t;
  vspace : list Z;                 (* free virtual page numbers *)
  simpleEnv : list (Z * Z);        (* device regions: physical base, size bits *)
  endpoint : Z;                    (* [endpoint.cptr] *)
  faketime_ctr : Z;                (* [uint32_t faketime] *)
  irqHandlerList : gmap Z Z        (* [chash_t irqHandlerList] *)
}.

Record world := mk_world {
  procServ : procserv_state;
  kernel : kernel_state;
  trace : list event
}.

Definition set_vka_free (l : list Z) (s : world) : world :=
  let p := procServ s in
  mk_world (mk_procserv (mk_vka l (vka_root (vka p)) (vka_depth (vka p)))
              (vspace p) (simpleEnv p) (endpoint p) (faketime_ctr p)
              (irqHandlerList p))
           (kernel s) (trace s).

Definition set_vspace (l : list Z) (s : world) : world :=
  let p := procServ s in
  mk_world (mk_procserv (vka p) l (simpleEnv p) (endpoint p) (faketime_ctr p)
              (irqHandlerList p))
           (kernel s) (trace s).

Definition set_faketime (t : Z) (s : world) : world :=
  let p := procServ s in
  mk_world (mk_procserv (vka p) (vspace p) (simpleEnv p) (endpoint p) t
              (irqHandlerList p))
           (kernel s) (trace s).

Definition set_irqHandlerList (m : gmap Z Z) (s : world) : world :=
  let p := procServ s in
  mk_world (mk_procserv (vka p) (vspace p) (simpleEnv p) (endpoint p)
              (faketime_ctr p) m)
           (kernel s) (trace s).

Definition set_cnode (c : gmap Z cap) (s : world) : world :=
  let k := kernel s in
  mk_world (procServ s)
           (mk_kernel c (k_page_table k) (k_pmem k) (k_irq_max k) (k_irq_issued k))
           (trace s).

Definition set_page_table (t : gmap Z (Z * Z)) (s : world) : world :=
  let k := kernel s in
  mk_world (procServ s)
           (mk_kernel (k_cnode k) t (k_pmem k) (k_irq_max k) (k_irq_issued k))
           (trace s).

Definition set_pmem (m : gmap Z byte) (s : world) : world :=
  let k := kernel s in
  mk_world (procServ s)
           (mk_kernel (k_cnode k) (k_page_table k) m (k_irq_max k) (k_irq_issued k))
           (trace s).

Definition set_irq_issued (i : gset Z) (s : world) : world :=
  let k := kernel s in
  mk_world (procServ s)
           (mk_kernel (k_cnode k) (k_page_table k) (k_pmem k) (k_irq_max k) i)
           (trace s).

Definition log (e : event) (s : world) : world :=
  mk_world (procServ s) (kernel s) (e :: trace s).

(** ** The monad of the C functions *)

(** A call either returns a value, or the server takes a fault and stops;
    both leave a world behind. *)
Inductive outcome (A : Type) :=
  | Done (a : A) (s : world)
  | Fault (s : world).
Arguments Done {A} a s.
Arguments Fault {A} s.

Definition final {A} (o : outcome A) : world :=
  match o with Done _ s => s | Fault s => s end.

Definition M (A : Type) : Type := world → outcome A.

Definition ret {A} (a : A) : M A := fun s => Done a s.

Definition bind {A B} (m : M A) (k : A → M B) : M B :=
  fun s => match m s with
           | Done a s' => k a s'
           | Fault s' => Fault s'
           end.

Definition fault {A} : M A := fun s => Fault s.
Definition get : M world := fun s => Done s s.
Definition modify (f : world → world) : M unit := fun s => Done tt (f s).

Notation "'do' x <- m ; k" := (bind m (fun x => k))
  (at level 10, x name, m at level 90, k at level 200,
   format "'[v' 'do'  x  <-  m ; '/' k ']'").
Notation "'do' ' p <- m ; k" :=
  (bind m (fun x => match x with p => k end))
  (at level 10, p pattern, m at level 90, k at level 200,
   format "'[v' 'do'  ' p  <-  m ; '/' k ']'").

Section ProcessServer.

(** The build configuration ([#ifdef CONFIG_ARCH_ARM]) and the width in
    bits of [size_t] and of pointers on the target. *)
Variable CONFIG_ARCH_ARM : bool.
Variable w : Z.

(** ** The allocator interface (vka) *)

(** The path of a slot in the capability space of the allocator. *)
Definition vka_cspace_make_path (slot : Z) : M cspacepath_t :=
  do s <- get;
  ret (mk_path slot (vka_depth (vka (procServ s))) (vka_root (vka (procServ s)))).

(** Modelled from the spec: every request is served from the pool of free
    slots, so that a slot handed out is not handed out again before it is
    freed; an empty pool is an allocation failure.  [res] is the caller's
    structure; it is written on success only. *)
Definition vka_cspace_alloc_path (res : cspacepath_t)
  : M (seL4_Error * cspacepath_t) :=
  do s <- get;
  match vka_free (vka (procServ s)) with
  | [] =>
      do _ <- modify (log (EvCSpaceAlloc None));
      ret (seL4_NotEnoughMemory, res)
  | slot :: rest =>
      do _ <- modify (fun s => log (EvCSpaceAlloc (Some slot)) (set_vka_free rest s));
      do p <- vka_cspace_make_path slot;
      ret (seL4_NoError, p)
  end.

Definition vka_cspace_free (slot : Z) : M unit :=
  modify (fun s =>
    log (EvCSpaceFree slot) (set_vka_free (slot :: vka_free (vka (procServ s))) s)).

(** ** Kernel invocations *)

(** The capability a mint installs: rights are masked by the requested
    ones; an endpoint capability takes the badge, and only an unbadged one
    can be badged. *)
Definition derive_cap (c : cap) (rights data : Z) : option cap :=
  match c with
  | EndpointCap ep r b =>
      if b =? 0 then Some (EndpointCap ep (Z.land r rights) data) else None
  | FrameCap pa bits r => Some (FrameCap pa bits (Z.land r rights))
  | IRQHandlerCap irq => Some (IRQHandlerCap irq)
  end.

(** The kernel's answer to [seL4_CNode_Mint] and the CNode it leaves: the
    source slot must hold a capability and the destination slot none. *)
Definition cnode_mint (cn : gmap Z cap) (dest src rights data : Z)
  : seL4_Error * gmap Z cap :=
  match cn !! src with
  | None => (seL4_FailedLookup, cn)
  | Some c =>
      match cn !! dest with
      | Some _ => (seL4_DeleteFirst, cn)
      | None =>
          match derive_cap c rights data with
          | None => (seL4_IllegalOperation, cn)
          | Some c' => (seL4_NoError, <[dest := c']> cn)
          end
      end
  end.

(** [vka_cnode_mint] is [seL4_CNode_Mint] on the two paths. *)
Definition vka_cnode_mint (dest src : cspacepath_t) (rights data : Z)
  : M seL4_Error :=
  do s <- get;
  let r := cnode_mint (k_cnode (kernel s)) (capPtr dest) (capPtr src) rights data in
  do _ <- modify (fun s =>
            log (EvCNodeMint (capPtr dest) (capPtr src) rights data (fst r))
                (if is_error (fst r) then s else set_cnode (snd r) s));
  ret (fst r).

(** [seL4_IRQControl_Get]: one handler per line, for the lines the platform
    has, into an empty slot. *)
Definition seL4_IRQControl_Get (irq root_ index depth : Z) : M seL4_Error :=
  do s <- get;
  let k := kernel s in
  let ev := EvIRQControlGet irq index in
  if (irq <? 0) || (k_irq_max k <? irq) then
    do _ <- modify (log (ev seL4_RangeError)); ret seL4_RangeError
  else if bool_decide (irq ∈ k_irq_issued k) then
    do _ <- modify (log (ev seL4_RevokeFirst)); ret seL4_RevokeFirst
  else
    match k_cnode k !! index with
    | Some _ => do _ <- modify (log (ev seL4_DeleteFirst)); ret seL4_DeleteFirst
    | None =>
        do _ <- modify (fun s =>
                  log (ev seL4_NoError)
                      (set_irq_issued ({[irq]} ∪ k_irq_issued k)
                         (set_cnode (<[index := IRQHandlerCap irq]> (k_cnode k)) s)));
        ret seL4_NoError
    end.

Definition seL4_ARM_Page_Unify_Instruction (frame start_offset end_offset : Z)
  : M unit :=
  modify (log (EvUnifyInstruction frame start_offset end_offset)).

(** ** The device directory of the boot environment (simple) *)

(** Modelled from the spec: the directory yields a frame capability for a
    device region of the given physical address and size exponent, into the
    given slot, and fails when it has no such region. *)
Definition device_lookup (devs : list (Z * Z)) (cn : gmap Z cap)
    (paddr sizeBits dest : Z) : seL4_Error * gmap Z cap :=
  if bool_decide ((paddr, sizeBits) ∈ devs) then
    match cn !! dest with
    | Some _ => (seL4_DeleteFirst, cn)
    | None => (seL4_NoError, <[dest := FrameCap paddr sizeBits seL4_AllRights]> cn)
    end
  else (seL4_FailedLookup, cn).

Definition simple_get_frame_cap (paddr sizeBits : Z) (path : cspacepath_t)
  : M seL4_Error :=
  do s <- get;
  let r := device_lookup (simpleEnv (procServ s)) (k_cnode (kernel s))
             paddr sizeBits (capPtr path) in
  do _ <- modify (fun s =>
            log (EvGetFrameCap paddr sizeBits (capPtr path) (fst r))
                (if is_error (fst r) then s else set_cnode (snd r) s));
  ret (fst r).

(** ** The address space manager (vspace) *)

(** Modelled from the spec: on-demand mapping of one frame at a free page
    of the server's address space.  The result is the virtual address, or 0
    ([NULL]) when there is no free page, when the capability is not a frame
    of the requested size, or when the kernel refuses the page (outside the
    address space, or occupied). *)
Definition vspace_map_pages (frame rights size_bits : Z) : M Z :=
  do s <- get;
  match vspace (procServ s), k_cnode (kernel s) !! frame with
  | vpn :: rest, Some (FrameCap pa bits r) =>
      if (bits =? size_bits) && (size_bits =? seL4_PageBits)
         && (0 <? vpn) && ((vpn + 1) * REFOS_PAGE_SIZE <=? 2 ^ w)
         && bool_decide (k_page_table (kernel s) !! vpn = None)
      then
        do _ <- modify (fun s =>
                  log (EvMapPages frame (vpn * REFOS_PAGE_SIZE))
                      (set_page_table
                         (<[vpn := (pa, Z.land r rights)]> (k_page_table (kernel s)))
                         (set_vspace rest s)));
        ret (vpn * REFOS_PAGE_SIZE)
      else
        do _ <- modify (log (EvMapPages frame 0)); ret 0
  | _, _ => do _ <- modify (log (EvMapPages frame 0)); ret 0
  end.

(** Unmapping keeps the frame ([VSPACE_PRESERVE]) and returns the page to
    the free pages of the address space. *)
Definition vspace_unmap_pages (vaddr : Z) : M unit :=
  do s <- get;
  let vpn := vaddr / REFOS_PAGE_SIZE in
  match k_page_table (kernel s) !! vpn with
  | None => modify (log (EvUnmapPages vaddr))
  | Some _ =>
      modify (fun s =>
        log (EvUnmapPages vaddr)
            (set_page_table (delete vpn (k_page_table (kernel s)))
               (set_vspace (vpn :: vspace (procServ s)) s)))
  end.

(** ** Memory accesses of the server *)

(** Address translation: the physical address behind a virtual one, with
    the access rights of the page. *)
Definition vm_translate (k : kernel_state) (va : Z) : option (Z * Z) :=
  match k_page_table k !! (va / REFOS_PAGE_SIZE) with
  | Some (pa, r) => Some (pa + va mod REFOS_PAGE_SIZE, r)
  | None => None
  end.

Definition vm_store (va : Z) (b : byte) : M unit :=
  do s <- get;
  match vm_translate (kernel s) va with
  | Some (pa, r) =>
      if Z.testbit r 0 then modify (set_pmem (<[pa := b]> (k_pmem (kernel s))))
      else fault
  | None => fault
  end.

Definition vm_load (va : Z) : M byte :=
  do s <- get;
  match vm_translate (kernel s) va with
  | Some (pa, r) =>
      if Z.testbit r 1 then ret (default x00 (k_pmem (kernel s) !! pa))
      else fault
  | None => fault
  end.

Fixpoint vm_store_bytes (va : Z) (bs : list byte) : M unit :=
  match bs with
  | [] => ret tt
  | b :: bs' => do _ <- vm_store va b; vm_store_bytes (wrap w (va + 1)) bs'
  end.

Fixpoint vm_load_bytes (va : Z) (n : nat) : M (list byte) :=
  match n with
  | O => ret []
  | S n' =>
      do b <- vm_load va;
      do bs <- vm_load_bytes (wrap w (va + 1)) n';
      ret (b :: bs)
  end.

(** [memcpy(dst, src, n)] from a buffer of the server into mapped memory;
    reading more than the buffer holds is a fault. *)
Definition memcpy_to_vm (dst : Z) (src : list byte) (n : Z) : M unit :=
  if Z.of_nat (length src) <? n then fault
  else vm_store_bytes dst (take (Z.to_nat n) src).

(** [memcpy(dst, src, n)] from mapped memory into a buffer of the server:
    the first [n] bytes of the buffer are replaced. *)
Definition memcpy_from_vm (dst : list byte) (src : Z) (n : Z) : M (list byte) :=
  if Z.of_nat (length dst) <? n then fault
  else
    do bs <- vm_load_bytes src (Z.to_nat n);
    ret (bs ++ drop (Z.to_nat n) dst).

(** ** The IRQ handler table (chash) *)

(** Modelled from the spec: [chash_get] and [chash_set] belong to RefOS'
    data structure library and are not part of [state.c]; the cache is a
    mapping from interrupt line to handler slot, and a line without entry
    reads as 0 ([NULL]). *)
Definition chash_get (t : gmap Z Z) (key : Z) : Z := default 0 (t !! key).

Definition chash_set (t : gmap Z Z) (key item : Z) : gmap Z Z := <[key := item]> t.

(** ** The functions of [state.c] *)

(** [uint32_t faketime() { return procServ.faketime++; }] *)
Definition faketime : M Z :=
  do s <- get;
  let t := faketime_ctr (procServ s) in
  do _ <- modify (set_faketime (uint32 (t + 1)));
  ret t.

(** [procserv_mint_badge] *)
Definition procserv_mint_badge (badge : Z) : M cspacepath_t :=
  let path := path_zero in
  do '(error, path) <- vka_cspace_alloc_path path;
  if is_error error then
    ret path
  else
    do s <- get;
    do pathSrc <- vka_cspace_make_path (endpoint (procServ s));
    do error <- vka_cnode_mint path pathSrc
                  (Z.lor seL4_CanGrant seL4_CanWrite)
                  (seL4_CapData_Badge_new badge);
    if is_error error then
      do _ <- vka_cspace_free (capPtr path);
      let path := path_zero in
      ret path
    else
      ret path.

(** The loop of [procserv_flush], from index [i], with [n] rounds left.
    Reading [frame[i]] past the end of the array is a fault. *)
Fixpoint procserv_flush_loop (frame : list Z) (i : nat) (n : nat) : M unit :=
  match n with
  | O => ret tt
  | S n' =>
      match frame !! i with
      | None => fault
      | Some f =>
          do _ <- (if f =? 0 then ret tt
                   else seL4_ARM_Page_Unify_Instruction f 0 REFOS_PAGE_SIZE);
          procserv_flush_loop frame (S i) n'
      end
  end.

(** [procserv_flush]; [frame = None] is the null pointer. *)
Definition procserv_flush (frame : option (list Z)) (nFrames : Z) : M unit :=
  if CONFIG_ARCH_ARM then
    match frame with
    | None => ret tt
    | Some fs => procserv_flush_loop fs 0 (Z.to_nat nFrames)
    end
  else ret tt.

(** [procserv_frame_write] *)
Definition procserv_frame_write (frame : Z) (src : list byte) (len offset : Z)
  : M refos_error :=
  if REFOS_PAGE_SIZE <? wrap w (offset + len) then
    ret EINVALIDPARAM
  else
    do addr <- vspace_map_pages frame seL4_AllRights seL4_PageBits;
    if addr =? 0 then
      ret ENOMEM
    else
      do _ <- memcpy_to_vm (wrap w (addr + offset)) src len;
      do _ <- procserv_flush (Some [frame]) 1;
      do _ <- vspace_unmap_pages addr;
      ret ESUCCESS.

(** [procserv_frame_read]; the result carries the contents of [dst] on
    return. *)
Definition procserv_frame_read (frame : Z) (dst : list byte) (len offset : Z)
  : M (refos_error * list byte) :=
  if REFOS_PAGE_SIZE <? wrap w (offset + len) then
    ret (EINVALIDPARAM, dst)
  else
    do addr <- vspace_map_pages frame seL4_AllRights seL4_PageBits;
    if addr =? 0 then
      ret (ENOMEM, dst)
    else
      do _ <- procserv_flush (Some [frame]) 1;
      do dst' <- memcpy_from_vm dst (wrap w (addr + offset)) len;
      do _ <- vspace_unmap_pages addr;
      ret (ESUCCESS, dst').

(** The search of [procserv_find_device] for the size in bits, from
    exponent [i], with [n] rounds left: [-1] when no [1 << i] is [size]. *)
Fixpoint find_sizeBits (size : Z) (i : Z) (n : nat) : Z :=
  match n with
  | O => -1
  | S n' =>
      if sint32 (Z.shiftl 1 i) =? size then i
      else find_sizeBits size (i + 1) n'
  end.

(** [procserv_find_device]; [path] is the local structure as the function
    finds it (it is not initialised beyond [capPtr]). *)
Definition procserv_find_device (path : cspacepath_t) (paddr : Z) (size : Z)
  : M cspacepath_t :=
  let path := set_capPtr path 0 in
  let sizeBits := find_sizeBits size 0 32 in
  if sizeBits =? -1 then
    ret path
  else
    do '(error, path) <- vka_cspace_alloc_path path;
    if is_error error then
      let path := set_capPtr path 0 in
      ret path
    else
      do error <- simple_get_frame_cap paddr sizeBits path;
      if is_error error then
        do _ <- vka_cspace_free (capPtr path);
        let path := set_capPtr path 0 in
        ret path
      else
        (* assert(path.capPtr) *)
        if capPtr path =? 0 then fault else ret path.

(** [procserv_get_irq_handler]; [handler] is the uninitialised local. *)
Definition procserv_get_irq_handler (handler : cspacepath_t) (irq : Z) : M Z :=
  do s <- get;
  let existingHandler := chash_get (irqHandlerList (procServ s)) irq in
  if negb (existingHandler =? 0) then
    ret existingHandler
  else
    do '(error, handler) <- vka_cspace_alloc_path handler;
    if is_error error then
      ret 0
    else
      do error <- seL4_IRQControl_Get irq (root handler) (capPtr handler)
                    (capDepth handler);
      if is_error error then
        do _ <- vka_cspace_free (capPtr handler);
        ret 0
      else
        do _ <- modify (fun s =>
                  set_irqHandlerList
                    (chash_set (irqHandlerList (procServ s)) irq (capPtr handler)) s);
        ret (capPtr handler).

End ProcessServer.

(** ** Release of a capability slot *)

#[global] Instance cap_eq_dec : EqDecision cap.
Proof. solve_decision. Defined.

(** The kernel's [seL4_CNode_Delete] on a slot of the server's CNode: the
    slot is emptied (an empty slot stays empty, without error), every other
    slot is left alone, and when the capability deleted was the last handler
    capability of an interrupt line, the line can be handed out again.  A
    frame capability carries no mapping of its own here: the transfers of
    [state.c] unmap before they return. *)
Definition cnode_delete (k : kernel_state) (slot : Z) : kernel_state :=
  let cn := delete slot (k_cnode k) in
  let issued :=
    match k_cnode k !! slot with
    | Some (IRQHandlerCap irq) =>
        if bool_decide (map_Exists (fun _ c => c = IRQHandlerCap irq) cn)
        then k_irq_issued k
        else k_irq_issued k ∖ {[irq]}
    | _ => k_irq_issued k
    end in
  mk_kernel cn (k_page_table k) (k_pmem k) (k_irq_max k) issued.

(** [vka_cnode_delete] is [seL4_CNode_Delete] on the path.  The deletion
    shows in the CNode; it has no entry of its own in the request log. *)
Definition vka_cnode_delete (path : cspacepath_t) : M seL4_Error :=
  do _ <- modify (fun s =>
            mk_world (procServ s) (cnode_delete (kernel s) (capPtr path)) (trace s));
  ret seL4_NoError.

(** [procserv_nameserv_callback_free_cap] *)
Definition procserv_nameserv_callback_free_cap (cap : Z) : M unit :=
  if cap =? 0 then
    ret tt
  else
    do path <- vka_cspace_make_path cap;
    do _ <- vka_cnode_delete path;
    vka_cspace_free cap.

(** ** Sample worlds *)

(** A world as the server has it after initialisation: the main endpoint
    in slot 1 with all rights and no badge, a client frame in slot 20,
    three free slots, two free pages, one device region, a clock at 0 and
    an empty handler table. *)
Definition sample_kernel : kernel_state :=
  mk_kernel
    (<[1 := EndpointCap 100 seL4_AllRights 0]>
       (<[20 := FrameCap 65536 seL4_PageBits seL4_AllRights]> ∅))
    ∅ ∅ 31 ∅.

Definition sample_procserv : procserv_state :=
  mk_procserv (mk_vka [3; 4; 5] 2 32) [16; 17] [(1408237568, 12)] 1 0 ∅.

Definition sample_world : world := mk_world sample_procserv sample_kernel [].

(** The same world with the address space exhausted. *)
Definition sample_world_no_page : world := set_vspace [] sample_world.

(** The same world with the allocator exhausted. *)
Definition sample_world_no_slot : world := set_vka_free [] sample_world.

(** The same world with a device region of 2^31 bytes in the directory. *)
Definition sample_world_large_device : world :=
  mk_world
    (mk_procserv (mk_vka [3; 4; 5] 2 32) [16; 17] [(2147483648, 31)] 1 0 ∅)
    sample_kernel [].

(** The same world with a page of the server's own data mapped just below
    the first free page. *)
Definition sample_world_neighbour : world :=
  set_page_table (<[15 := (131072, seL4_AllRights)]> ∅) sample_world.

(** ** Auxiliary definitions of the statements *)

(** The world after a list of requests has been logged, oldest first. *)
Definition log_all (evs : list event) (s : world) : world :=
  mk_world (procServ s) (kernel s) (rev evs ++ trace s).

(** The cache synchronisations [procserv_flush] owes for a list of frames. *)
Definition unify_events (fs : list Z) : list event :=
  map (fun f => EvUnifyInstruction f 0 REFOS_PAGE_SIZE)
      (filter (fun f => f ≠ 0) fs).

(** The world after [n] calls of [faketime]. *)
Definition faketime_calls (n : N) (s : world) : world :=
  N.iter n (fun s => final (faketime s)) s.

(** The world after a sequence of calls of [procserv_get_irq_handler]. *)
Definition irq_calls (calls : list (cspacepath_t * Z)) (s : world) : world :=
  fold_left (fun s c => final (procserv_get_irq_handler (fst c) (snd c) s)) calls s.

(** Physical memory after [bs] has been stored from address [pa] upwards,
    and the [n] bytes read from [pa] upwards. *)
Fixpoint store_bytes (pa : Z) (bs : list byte) (m : gmap Z byte) : gmap Z byte :=
  match bs with
  | [] => m
  | b :: bs' => store_bytes (pa + 1) bs' (<[pa := b]> m)
  end.

Fixpoint load_bytes (pa : Z) (n : nat) (m : gmap Z byte) : list byte :=
  match n with
  | O => []
  | S n' => default x00 (m !! pa) :: load_bytes (pa + 1) n' m
  end.

(** The requests of [procserv_flush(&frame, 1)]. *)
Definition flush_events (CONFIG_ARCH_ARM : bool) (frame : Z) : list event :=
  if CONFIG_ARCH_ARM then unify_events [frame] else [].

(** The requests of a frame transfer that maps the frame at [addr]. *)
Definition transfer_events (CONFIG_ARCH_ARM : bool) (frame addr : Z) : list event :=
  EvMapPages frame addr :: flush_events CONFIG_ARCH_ARM frame ++ [EvUnmapPages addr].

(** [frame] can be mapped in [s]: the slot holds a capability to a frame of
    one page at physical address [pa] with rights [r], and the first free
    page [vpn] of the address space is unoccupied and lies inside the
    [w]-bit address space, above the null page. *)
Definition mappable_at (w : Z) (s : world) (frame vpn pa r : Z) : Prop :=
  head (vspace (procServ s)) = Some vpn ∧
  k_cnode (kernel s) !! frame = Some (FrameCap pa seL4_PageBits r) ∧
  0 < vpn ∧ (vpn + 1) * REFOS_PAGE_SIZE ≤ 2 ^ w ∧
  k_page_table (kernel s) !! vpn = None.

(** The world after [frame] has been mapped at page [vpn]. *)
Definition mapped_world (s : world) (frame vpn pa r : Z) : world :=
  log (EvMapPages frame (vpn * REFOS_PAGE_SIZE))
      (set_page_table
         (<[vpn := (pa, Z.land r seL4_AllRights)]> (k_page_table (kernel s)))
         (set_vspace (tail (vspace (procServ s))) s)).

(** The state the primitives of [state.c] rely on and keep: the free slots
    of the allocator are distinct, non-null and empty, and the main endpoint
    capability is in its slot as [vka_alloc_endpoint] made it, with all
    rights and no badge. *)
Definition slots_inv (free : list Z) (cn : gmap Z cap) (endpoint : Z) : Prop :=
  NoDup free ∧
  (0 ∉ free) ∧
  (∀ c, c ∈ free → cn !! c = None) ∧
  ∃ ep, cn !! endpoint = Some (EndpointCap ep seL4_AllRights 0).

Definition procserv_inv (s : world) : Prop :=
  slots_inv (vka_free (vka (procServ s))) (k_cnode (kernel s))
            (endpoint (procServ s)).



(** The values returned by [n] successive calls of [faketime]. *)
Fixpoint faketime_values (n : nat) (s : world) : list Z :=
  match n with
  | O => []
  | S n' =>
      match faketime s with
      | Done t s' => t :: faketime_values n' s'
      | Fault _ => []
      end
  end.

(** The handler table is sound: a non-null entry for a line is a slot that
    holds a handler capability of that line and is not free. *)
Definition cache_ok (t : gmap Z Z) (cn : gmap Z cap) (free : list Z) : Prop :=
  ∀ irq h,
    t !! irq = Some h → h ≠ 0 →
    cn !! h = Some (IRQHandlerCap irq) ∧ (h ∉ free).

Definition irq_cache_inv (s : world) : Prop :=
  cache_ok (irqHandlerList (procServ s)) (k_cnode (kernel s))
           (vka_free (vka (procServ s))).


(** The world a successful [procserv_mint_badge] leaves: slot [slot] taken
    from the allocator and filled with the badged capability. *)
Definition minted_world (s : world) (slot : Z) (rest : list Z) (ep badge : Z)
  : world :=
  log (EvCNodeMint slot (endpoint (procServ s)) (Z.lor seL4_CanGrant seL4_CanWrite)
         (seL4_CapData_Badge_new badge) seL4_NoError)
      (set_cnode
         (<[slot := EndpointCap ep (Z.lor seL4_CanGrant seL4_CanWrite)
                      (seL4_CapData_Badge_new badge)]>
            (k_cnode (kernel s)))
         (log (EvCSpaceAlloc (Some slot)) (set_vka_free rest s))).


(** * Properties *)

Ltac run := unfold bind, ret, get, modify, fault; simpl.

(** ** The logical clock *)

Lemma faketime_eq s :
  faketime s =
    Done (faketime_ctr (procServ s))
         (set_faketime (uint32 (faketime_ctr (procServ s) + 1)) s).
Proof. reflexivity. Qed.

Lemma uint32_range z : 0 ≤ uint32 z < 2 ^ 32.
Proof. unfold uint32. apply Z.mod_pos_bound. lia. Qed.

Lemma faketime_calls_succ n s :
  faketime_calls (N.succ n) s = final (faketime (faketime_calls n s)).
Proof. unfold faketime_calls. by rewrite N.iter_succ. Qed.

(** The clock after [n] calls is the initial value plus [n], modulo 2^32. *)
Lemma faketime_calls_ctr n s :
  0 ≤ faketime_ctr (procServ s) < 2 ^ 32 →
  faketime_ctr (procServ (faketime_calls n s))
  = uint32 (faketime_ctr (procServ s) + Z.of_N n).
Proof.
  intros Hs. induction n as [|n IH] using N.peano_ind.
  - unfold faketime_calls, uint32. simpl. rewrite Z.add_0_r, Z.mod_small; lia.
  - rewrite faketime_calls_succ, faketime_eq. simpl. rewrite IH.
    unfold uint32. rewrite Zplus_mod_idemp_l. f_equal. lia.
Qed.

(** C9, as the code has it: two successive calls of [faketime] return the
    clock value [t] and then [t + 1] modulo 2^32; the later value is
    strictly greater than the earlier one whenever the earlier one is below
    2^32 - 1, the largest value of the 32-bit counter. *)
Theorem faketime_successive_calls s :
  0 ≤ faketime_ctr (procServ s) < 2 ^ 32 →
  ∃ s1 s2,
    let t := faketime_ctr (procServ s) in
    faketime s = Done t s1 ∧
    faketime s1 = Done (uint32 (t + 1)) s2 ∧
    (t < 2 ^ 32 - 1 → t < uint32 (t + 1)) ∧
    0 ≤ faketime_ctr (procServ s2) < 2 ^ 32.
Proof.
  intros Hs. eexists _, _. cbv zeta. split; [apply faketime_eq|].
  split; [by rewrite faketime_eq|]. split.
  - intros Hlt. unfold uint32. rewrite Z.mod_small; lia.
  - simpl. apply uint32_range.
Qed.

Lemma faketime_successive_calls_witness :
  ∃ s1 s2,
    faketime sample_world = Done 0 s1 ∧
    faketime s1 = Done (uint32 (0 + 1)) s2 ∧
    (0 < 2 ^ 32 - 1 → 0 < uint32 (0 + 1)) ∧
    0 ≤ faketime_ctr (procServ s2) < 2 ^ 32.
Proof. apply (faketime_successive_calls sample_world). simpl. lia. Defined.

(** C9 as stated fails: after 2^32 - 1 calls from the initial clock 0, the
    next two calls return 4294967295 and then 0. *)
Lemma faketime_not_increasing :
  ∃ v1 s1 v2 s2,
    faketime (faketime_calls (2 ^ 32 - 1) sample_world) = Done v1 s1 ∧
    faketime s1 = Done v2 s2 ∧ ¬ (v1 < v2).
Proof.
  set (s := faketime_calls (2 ^ 32 - 1) sample_world).
  assert (Hc : faketime_ctr (procServ s) = 2 ^ 32 - 1).
  { unfold s. rewrite faketime_calls_ctr by (simpl; lia). reflexivity. }
  clearbody s. eexists _, _, _, _. split; [apply faketime_eq|].
  split; [apply faketime_eq|]. simpl. rewrite Hc. unfold uint32.
  replace (2 ^ 32 - 1 + 1) with (1 * 2 ^ 32) by lia.
  rewrite Z.mod_mul by lia. lia.
Qed.

(** ** Instruction cache synchronisation *)

Lemma log_all_nil s : log_all [] s = s.
Proof. by destruct s. Qed.

Lemma log_all_cons e evs s : log_all (e :: evs) s = log_all evs (log e s).
Proof. unfold log_all, log. simpl. by rewrite <- app_assoc. Qed.

Lemma unify_events_cons f fs :
  unify_events (f :: fs) =
    if decide (f = 0) then unify_events fs
    else EvUnifyInstruction f 0 REFOS_PAGE_SIZE :: unify_events fs.
Proof.
  unfold unify_events. rewrite filter_cons.
  destruct (decide (f = 0)), (decide (f ≠ 0)); try done; lia.
Qed.

(** The loop visits [fs[i .. i+n)] and synchronises the non-null entries. *)
Lemma procserv_flush_loop_spec fs n : ∀ i s,
  (i + n ≤ length fs)%nat →
  procserv_flush_loop fs i n s =
    Done tt (log_all (unify_events (take n (drop i fs))) s).
Proof.
  induction n as [|n IH]; intros i s Hn.
  - simpl. by rewrite take_0, log_all_nil.
  - simpl. destruct (fs !! i) as [f|] eqn:Hf.
    2:{ apply lookup_ge_None in Hf. lia. }
    rewrite (drop_S _ _ _ Hf), firstn_cons, unify_events_cons.
    unfold bind. destruct (decide (f = 0)) as [->|Hne].
    + simpl. by rewrite IH by lia.
    + destruct (Z.eqb_spec f 0) as [|_]; [done|].
      unfold seL4_ARM_Page_Unify_Instruction, modify.
      rewrite IH by lia. by rewrite log_all_cons.
Qed.

(** C8: [procserv_flush] returns without fault and without effect on a null
    frame list; on a list it returns without fault whatever entries are
    null, and the requests it issues are exactly the synchronisations of
    the non-null entries among the first [nFrames] (none at all on a
    configuration other than ARM); on [[0; validFrame]] with count 2 the one
    request issued is the synchronisation of [validFrame]. *)
Theorem procserv_flush_null_tolerant (CONFIG_ARCH_ARM : bool) s :
  (∀ nFrames, procserv_flush CONFIG_ARCH_ARM None nFrames s = Done tt s) ∧
  (∀ fs nFrames,
     nFrames ≤ Z.of_nat (length fs) →
     procserv_flush CONFIG_ARCH_ARM (Some fs) nFrames s =
       Done tt (if CONFIG_ARCH_ARM
                then log_all (unify_events (take (Z.to_nat nFrames) fs)) s
                else s)) ∧
  (∀ validFrame,
     validFrame ≠ 0 →
     procserv_flush true (Some [0; validFrame]) 2 s =
       Done tt (log (EvUnifyInstruction validFrame 0 REFOS_PAGE_SIZE) s)).
Proof.
  split; [|split].
  - intros n. unfold procserv_flush. by destruct CONFIG_ARCH_ARM.
  - intros fs n Hn. unfold procserv_flush. destruct CONFIG_ARCH_ARM; [|done].
    rewrite procserv_flush_loop_spec by lia. by rewrite drop_0.
  - intros f Hf. unfold procserv_flush.
    rewrite procserv_flush_loop_spec by (simpl; lia).
    change (Z.to_nat 2) with 2%nat. simpl take.
    rewrite !unify_events_cons, decide_True, decide_False by done.
    by destruct s.
Qed.

Lemma procserv_flush_null_tolerant_witness :
  procserv_flush true (Some [0; 20]) 2 sample_world =
    Done tt (log_all (unify_events (take (Z.to_nat 2) [0; 20])) sample_world)
  ∧ procserv_flush true (Some [0; 20]) 2 sample_world =
    Done tt (log (EvUnifyInstruction 20 0 REFOS_PAGE_SIZE) sample_world).
Proof.
  split.
  - apply (proj1 (proj2 (procserv_flush_null_tolerant true sample_world))).
    simpl. lia.
  - apply (proj2 (proj2 (procserv_flush_null_tolerant true sample_world))).
    lia.
Defined.

(** ** The IRQ handler cache *)

(** A line with a non-null entry is answered from the table, and nothing
    else happens. *)
Lemma procserv_get_irq_handler_cached handler irq s h :
  chash_get (irqHandlerList (procServ s)) irq = h → h ≠ 0 →
  procserv_get_irq_handler handler irq s = Done h s.
Proof.
  intros Hget Hh. unfold procserv_get_irq_handler. run. rewrite Hget.
  by destruct (Z.eqb_spec h 0).
Qed.

(** A call always returns; a non-null result is in the table afterwards, and
    the non-null entries the table had are kept. *)
Lemma procserv_get_irq_handler_returns handler irq s :
  ∃ h s1,
    procserv_get_irq_handler handler irq s = Done h s1 ∧
    (h ≠ 0 → chash_get (irqHandlerList (procServ s1)) irq = h) ∧
    (∀ irq', chash_get (irqHandlerList (procServ s)) irq' ≠ 0 →
       chash_get (irqHandlerList (procServ s1)) irq'
       = chash_get (irqHandlerList (procServ s)) irq').
Proof.
  unfold procserv_get_irq_handler. run.
  destruct (Z.eqb_spec (chash_get (irqHandlerList (procServ s)) irq) 0)
    as [Hz|Hnz]; simpl.
  2:{ eexists _, _. by split. }
  unfold vka_cspace_alloc_path. run.
  destruct (vka_free (vka (procServ s))) as [|slot rest]; simpl.
  { eexists _, _. split; [done|]. by split. }
  unfold seL4_IRQControl_Get. run.
  destruct ((irq <? 0) || (k_irq_max (kernel s) <? irq)); simpl.
  { eexists _, _. split; [done|]. by split. }
  destruct (bool_decide (irq ∈ k_irq_issued (kernel s))); simpl.
  { eexists _, _. split; [done|]. by split. }
  destruct (k_cnode (kernel s) !! slot); simpl.
  { eexists _, _. split; [done|]. by split. }
  eexists _, _. split; [done|]. simpl. unfold chash_get, chash_set. split.
  - intros _. by rewrite lookup_insert_eq.
  - intros irq' Hirq'. rewrite lookup_insert_ne; [done|].
    intros <-. by apply Hirq'.
Qed.

Lemma irq_calls_keep calls : ∀ s irq,
  chash_get (irqHandlerList (procServ s)) irq ≠ 0 →
  chash_get (irqHandlerList (procServ (irq_calls calls s))) irq
  = chash_get (irqHandlerList (procServ s)) irq.
Proof.
  induction calls as [|[handler irq0] calls IH]; intros s irq Hirq; [done|].
  simpl. destruct (procserv_get_irq_handler_returns handler irq0 s)
    as (h & s1 & Hcall & _ & Hkeep).
  rewrite Hcall. simpl. rewrite IH; rewrite Hkeep; done.
Qed.

(** C6: a call of [procserv_get_irq_handler] always returns; when it returns
    a non-null handle, the handle is in the table, and a second call for the
    same line returns the same handle and leaves the world as it is: no slot
    is allocated and no kernel request is made.  The same holds for a call
    made after any further calls of [procserv_get_irq_handler]. *)
Theorem procserv_get_irq_handler_idempotent handler handler' irq s :
  ∃ h s1,
    procserv_get_irq_handler handler irq s = Done h s1 ∧
    (h ≠ 0 →
     chash_get (irqHandlerList (procServ s1)) irq = h ∧
     procserv_get_irq_handler handler' irq s1 = Done h s1 ∧
     ∀ calls,
       procserv_get_irq_handler handler' irq (irq_calls calls s1)
       = Done h (irq_calls calls s1)).
Proof.
  destruct (procserv_get_irq_handler_returns handler irq s)
    as (h & s1 & Hcall & Hin & _).
  exists h, s1. split; [done|]. intros Hh. specialize (Hin Hh).
  split; [done|]. split.
  - by apply procserv_get_irq_handler_cached.
  - intros calls. apply procserv_get_irq_handler_cached; [|done].
    rewrite irq_calls_keep; [done|]. by rewrite Hin.
Qed.

(** In the sample world the first call for line 5 takes slot 3 and the
    second call returns slot 3 again. *)
Lemma procserv_get_irq_handler_idempotent_witness :
  ∃ s1,
    procserv_get_irq_handler path_zero 5 sample_world = Done 3 s1 ∧
    procserv_get_irq_handler path_zero 5 s1 = Done 3 s1.
Proof.
  destruct (procserv_get_irq_handler_idempotent path_zero path_zero 5 sample_world)
    as (h & s1 & Hcall & Hnext).
  assert (Hh : h = 3).
  { pose proof Hcall as Hc. vm_compute in Hc. by injection Hc. }
  subst h. exists s1. split; [exact Hcall|]. apply Hnext. lia.
Defined.

(** ** Badge minting *)

(** The rights {grant, write} hold no read right. *)
Lemma grant_write_rights :
  let r := Z.lor seL4_CanGrant seL4_CanWrite in
  Z.land r seL4_CanGrant = seL4_CanGrant ∧
  Z.land r seL4_CanWrite = seL4_CanWrite ∧
  Z.land r seL4_CanRead = 0.
Proof. done. Qed.

(** The badge a capability gets is the given integer modulo
    [2 ^ seL4_BadgeBits]: a number of [seL4_BadgeBits] bits, equal to the
    given integer exactly when that integer is one. *)
Lemma seL4_CapData_Badge_new_mod badge :
  seL4_CapData_Badge_new badge = badge mod 2 ^ seL4_BadgeBits.
Proof.
  unfold seL4_CapData_Badge_new, uint32, seL4_BadgeBits.
  rewrite Z.land_ones by lia.
  change (2 ^ 32) with 4294967296. change (2 ^ 28) with 268435456.
  Z.div_mod_to_equations. lia.
Qed.

Lemma seL4_CapData_Badge_new_fits badge :
  0 ≤ seL4_CapData_Badge_new badge < 2 ^ seL4_BadgeBits ∧
  (seL4_CapData_Badge_new badge = badge ↔ 0 ≤ badge < 2 ^ seL4_BadgeBits).
Proof.
  rewrite seL4_CapData_Badge_new_mod. unfold seL4_BadgeBits.
  change (2 ^ 28) with 268435456.
  pose proof (Z.mod_pos_bound badge 268435456 ltac:(lia)) as Hb.
  split; [done|]. split.
  - intros <-. done.
  - intros Hfit. by apply Z.mod_small.
Qed.

(** C4, as the code has it: with the main endpoint capability in place (all
    rights, no badge), a call of [procserv_mint_badge] that succeeds, that
    is, returns a path with a non-null slot, has taken that slot from the
    free slots of the allocator (it is no longer among them), returns the
    path of that slot in the server's capability space, and has put into the
    slot, empty before, a capability to the main endpoint's object whose
    rights are grant and write, without read; the rest of the capability
    space is as before.  The badge [b] of that capability is the one
    [seL4_CapData_Badge_new] makes of the [int] it is given: the integer
    modulo [2 ^ seL4_BadgeBits].  It is the given value exactly when that
    value fits the badge, [0 ≤ badge < 2 ^ seL4_BadgeBits]. *)
Theorem procserv_mint_badge_success badge s ep path s' :
  k_cnode (kernel s) !! endpoint (procServ s)
    = Some (EndpointCap ep seL4_AllRights 0) →
  NoDup (vka_free (vka (procServ s))) →
  procserv_mint_badge badge s = Done path s' →
  capPtr path ≠ 0 →
  ∃ rest rights b,
    vka_free (vka (procServ s)) = capPtr path :: rest ∧
    vka_free (vka (procServ s')) = rest ∧
    (capPtr path ∉ vka_free (vka (procServ s'))) ∧
    path = mk_path (capPtr path) (vka_depth (vka (procServ s)))
                   (vka_root (vka (procServ s))) ∧
    k_cnode (kernel s) !! capPtr path = None ∧
    k_cnode (kernel s')
      = <[capPtr path := EndpointCap ep rights b]> (k_cnode (kernel s)) ∧
    rights = Z.lor seL4_CanGrant seL4_CanWrite ∧
    Z.land rights seL4_CanGrant = seL4_CanGrant ∧
    Z.land rights seL4_CanWrite = seL4_CanWrite ∧
    Z.land rights seL4_CanRead = 0 ∧
    b = seL4_CapData_Badge_new badge ∧
    b = badge mod 2 ^ seL4_BadgeBits ∧
    0 ≤ b < 2 ^ seL4_BadgeBits ∧
    (b = badge ↔ 0 ≤ badge < 2 ^ seL4_BadgeBits).
Proof.
  intros Hep Hnd Hcall Hnz. unfold procserv_mint_badge in Hcall.
  unfold vka_cspace_alloc_path, vka_cnode_mint, vka_cspace_make_path in Hcall.
  revert Hcall. run.
  destruct (vka_free (vka (procServ s))) as [|slot rest] eqn:Hfree; simpl.
  { intros [= <- <-]. done. }
  unfold cnode_mint. rewrite Hep.
  destruct (k_cnode (kernel s) !! slot) eqn:Hslot; simpl.
  { intros [= <- <-]. done. }
  intros [= <- <-]. simpl.
  exists rest, (Z.lor seL4_CanGrant seL4_CanWrite), (seL4_CapData_Badge_new badge).
  apply NoDup_cons in Hnd as [Hnotin _].
  pose proof grant_write_rights as (? & ? & ?).
  pose proof (seL4_CapData_Badge_new_fits badge) as [? ?].
  pose proof (seL4_CapData_Badge_new_mod badge).
  do 10 (split; [done|]). done.
Qed.

Lemma procserv_mint_badge_success_witness :
  ∃ rest rights b,
    vka_free (vka (procServ sample_world)) = 3 :: rest ∧
    vka_free (vka (procServ (final (procserv_mint_badge 7 sample_world)))) = rest ∧
    (3 ∉ vka_free (vka (procServ (final (procserv_mint_badge 7 sample_world))))) ∧
    mk_path 3 32 2 = mk_path 3 32 2 ∧
    k_cnode (kernel sample_world) !! 3 = None ∧
    k_cnode (kernel (final (procserv_mint_badge 7 sample_world)))
      = <[3 := EndpointCap 100 rights b]> (k_cnode (kernel sample_world)) ∧
    rights = Z.lor seL4_CanGrant seL4_CanWrite ∧
    Z.land rights seL4_CanGrant = seL4_CanGrant ∧
    Z.land rights seL4_CanWrite = seL4_CanWrite ∧
    Z.land rights seL4_CanRead = 0 ∧
    b = seL4_CapData_Badge_new 7 ∧
    b = 7 mod 2 ^ seL4_BadgeBits ∧
    0 ≤ b < 2 ^ seL4_BadgeBits ∧
    (b = 7 ↔ 0 ≤ 7 < 2 ^ seL4_BadgeBits).
Proof.
  apply (procserv_mint_badge_success 7 sample_world 100 (mk_path 3 32 2)
           (final (procserv_mint_badge 7 sample_world))).
  - reflexivity.
  - apply NoDup_ListNoDup. repeat constructor; simpl; lia.
  - reflexivity.
  - simpl. lia.
Defined.

(** C4 as stated fails: the mint of badge -1 succeeds, and the capability
    it puts into the slot carries the badge 268435455, the low 28 bits of
    the unsigned value of -1, not the given value. *)
Lemma procserv_mint_badge_negative_badge :
  ∃ s',
    procserv_mint_badge (-1) sample_world = Done (mk_path 3 32 2) s' ∧
    k_cnode (kernel s') !! 3
      = Some (EndpointCap 100 (Z.lor seL4_CanGrant seL4_CanWrite) 268435455) ∧
    268435455 ≠ -1.
Proof.
  eexists. split; [reflexivity|]. split; [reflexivity|]. lia.
Qed.

(** C5: [procserv_mint_badge] returns the zeroed path when the allocator has
    no slot, and when the mint into the slot it obtained fails; in both
    cases the state of the server (the free slots of the allocator in
    particular) and the kernel objects are as before the call: the world
    differs by the log of the requests only, which ends with the release of
    the slot in the second case. *)
Theorem procserv_mint_badge_failure badge s :
  (vka_free (vka (procServ s)) = [] →
   procserv_mint_badge badge s = Done path_zero (log_all [EvCSpaceAlloc None] s))
  ∧
  (∀ slot rest,
     vka_free (vka (procServ s)) = slot :: rest →
     let rights := Z.lor seL4_CanGrant seL4_CanWrite in
     let r := fst (cnode_mint (k_cnode (kernel s)) slot (endpoint (procServ s))
                     rights (seL4_CapData_Badge_new badge)) in
     is_error r = true →
     procserv_mint_badge badge s =
       Done path_zero
            (log_all [EvCSpaceAlloc (Some slot);
                      EvCNodeMint slot (endpoint (procServ s)) rights
                                  (seL4_CapData_Badge_new badge) r;
                      EvCSpaceFree slot] s)).
Proof.
  split.
  - intros Hfree. unfold procserv_mint_badge, vka_cspace_alloc_path. run.
    by rewrite Hfree.
  - intros slot rest Hfree rights r Hr. unfold procserv_mint_badge.
    unfold vka_cspace_alloc_path, vka_cnode_mint, vka_cspace_make_path,
      vka_cspace_free. run.
    rewrite Hfree. simpl. fold rights. fold r. rewrite Hr. simpl.
    f_equal. unfold log_all, log. simpl. rewrite <- Hfree.
    by destruct s as [[[] ?] ?].
Qed.

Lemma procserv_mint_badge_failure_witness :
  procserv_mint_badge 7 sample_world_no_slot
    = Done path_zero (log_all [EvCSpaceAlloc None] sample_world_no_slot)
  ∧ procserv_mint_badge 7 (set_cnode ∅ sample_world)
    = Done path_zero
        (log_all [EvCSpaceAlloc (Some 3);
                  EvCNodeMint 3 1 (Z.lor seL4_CanGrant seL4_CanWrite) 7
                              seL4_FailedLookup;
                  EvCSpaceFree 3] (set_cnode ∅ sample_world)).
Proof.
  split.
  - apply (proj1 (procserv_mint_badge_failure 7 sample_world_no_slot)).
    reflexivity.
  - exact (proj2 (procserv_mint_badge_failure 7 (set_cnode ∅ sample_world))
             3 [4; 5] eq_refl eq_refl).
Defined.

(** ** Device capability resolution *)

Lemma shiftl_1_pow i : 0 ≤ i → Z.shiftl 1 i = 2 ^ i.
Proof. intros Hi. rewrite Z.shiftl_mul_pow2 by done. lia. Qed.

(** An [int] equals the [int] value of a 32-bit pattern exactly when its
    own 32-bit pattern is that pattern. *)
Lemma sint32_eq_iff z size :
  - 2 ^ 31 ≤ size < 2 ^ 31 → 0 ≤ z < 2 ^ 32 →
  sint32 z = size ↔ uint32 size = z.
Proof.
  unfold sint32, uint32. change (2 ^ 31) with 2147483648.
  change (2 ^ 32) with 4294967296. intros Hs Hz.
  Z.div_mod_to_equations. lia.
Qed.

Lemma pow2_range i : 0 ≤ i < 32 → 0 ≤ 2 ^ i < 2 ^ 32.
Proof. intros Hi. split; [lia|]. apply Z.pow_lt_mono_r; lia. Qed.

Lemma find_sizeBits_none size n : ∀ i,
  (∀ j, i ≤ j < i + Z.of_nat n → sint32 (Z.shiftl 1 j) ≠ size) →
  find_sizeBits size i n = -1.
Proof.
  induction n as [|n IH]; intros i Hno; [done|]. simpl.
  destruct (Z.eqb_spec (sint32 (Z.shiftl 1 i)) size) as [Heq|_].
  - exfalso. apply (Hno i); [lia|done].
  - apply IH. intros j Hj. apply Hno. lia.
Qed.

Lemma find_sizeBits_first size n : ∀ i j,
  i ≤ j < i + Z.of_nat n →
  sint32 (Z.shiftl 1 j) = size →
  (∀ k, i ≤ k < j → sint32 (Z.shiftl 1 k) ≠ size) →
  find_sizeBits size i n = j.
Proof.
  induction n as [|n IH]; intros i j Hj Heq Hfirst; [lia|]. simpl.
  destruct (Z.eqb_spec (sint32 (Z.shiftl 1 i)) size) as [Hi|Hi].
  - destruct (decide (i = j)) as [|Hne]; [done|].
    exfalso. apply (Hfirst i); [lia|done].
  - apply IH; [|done|].
    + assert (i ≠ j) by (intros ->; done). lia.
    + intros k Hk. apply Hfirst. lia.
Qed.

(** The search yields [-1] exactly on the sizes whose 32-bit pattern is no
    power of two, and the exponent otherwise. *)
Lemma find_sizeBits_no_power size :
  - 2 ^ 31 ≤ size < 2 ^ 31 →
  (∀ i, 0 ≤ i < 32 → uint32 size ≠ 2 ^ i) →
  find_sizeBits size 0 32 = -1.
Proof.
  intros Hs Hno. apply find_sizeBits_none. intros j Hj Heq.
  apply (Hno j); [lia|]. rewrite shiftl_1_pow in Heq by lia.
  apply sint32_eq_iff in Heq; [done..|]. apply pow2_range. lia.
Qed.

Lemma find_sizeBits_power size i :
  - 2 ^ 31 ≤ size < 2 ^ 31 → 0 ≤ i < 32 → uint32 size = 2 ^ i →
  find_sizeBits size 0 32 = i.
Proof.
  intros Hs Hi Heq. apply find_sizeBits_first; [lia| |].
  - rewrite shiftl_1_pow by lia. apply sint32_eq_iff; [done| |done].
    apply pow2_range. lia.
  - intros k Hk Hk'. rewrite shiftl_1_pow in Hk' by lia.
    apply sint32_eq_iff in Hk'; [|done|apply pow2_range; lia].
    rewrite Heq in Hk'. apply Z.pow_inj_r in Hk'; lia.
Qed.

(** C7, as the code has it: the size is an [int] and is compared with the
    [int] values [1 << i], [0 <= i < 32], so it is the 32-bit pattern of the
    size that counts.  When that pattern is no power of two,
    [procserv_find_device] returns the path with slot index 0 and leaves the
    world untouched: no slot is allocated, no request is made.  When it is
    [2 ^ i], the call returns the path with slot index 0 if the allocator
    has no slot, and also if the device lookup fails, in which case the
    slot obtained is released again; in both cases the state of the server
    and the kernel objects are as before the call. *)
Theorem procserv_find_device_failure path paddr size s :
  - 2 ^ 31 ≤ size < 2 ^ 31 →
  ((∀ i, 0 ≤ i < 32 → uint32 size ≠ 2 ^ i) →
   procserv_find_device path paddr size s = Done (set_capPtr path 0) s)
  ∧
  (∀ i, 0 ≤ i < 32 → uint32 size = 2 ^ i →
     (vka_free (vka (procServ s)) = [] →
      procserv_find_device path paddr size s
      = Done (set_capPtr path 0) (log_all [EvCSpaceAlloc None] s))
     ∧
     (∀ slot rest,
        vka_free (vka (procServ s)) = slot :: rest →
        let r := fst (device_lookup (simpleEnv (procServ s)) (k_cnode (kernel s))
                        paddr i slot) in
        is_error r = true →
        procserv_find_device path paddr size s
        = Done (mk_path 0 (vka_depth (vka (procServ s)))
                        (vka_root (vka (procServ s))))
               (log_all [EvCSpaceAlloc (Some slot);
                         EvGetFrameCap paddr i slot r;
                         EvCSpaceFree slot] s))).
Proof.
  intros Hs. split.
  - intros Hno. unfold procserv_find_device.
    by rewrite find_sizeBits_no_power.
  - intros i Hi Hpow. unfold procserv_find_device.
    rewrite (find_sizeBits_power size i) by done.
    destruct (Z.eqb_spec i (-1)) as [|_]; [lia|].
    unfold vka_cspace_alloc_path, simple_get_frame_cap, vka_cspace_make_path,
      vka_cspace_free. split.
    + intros Hfree. run. by rewrite Hfree.
    + intros slot rest Hfree Hr. run. rewrite Hfree. simpl.
      rewrite Hr. simpl. f_equal. unfold log_all, log. simpl.
      rewrite <- Hfree. by destruct s as [[[] ?] ?].
Qed.

Lemma procserv_find_device_failure_witness :
  procserv_find_device path_zero 1408237568 100 sample_world
    = Done (set_capPtr path_zero 0) sample_world
  ∧ procserv_find_device path_zero 1408237568 8192 sample_world
    = Done (mk_path 0 32 2)
           (log_all [EvCSpaceAlloc (Some 3);
                     EvGetFrameCap 1408237568 13 3 seL4_FailedLookup;
                     EvCSpaceFree 3] sample_world).
Proof.
  split.
  - apply (procserv_find_device_failure path_zero 1408237568 100 sample_world);
      [lia|].
    intros i Hi. change (uint32 100) with 100.
    assert (i < 7 ∨ 7 ≤ i) as [Hlt|Hge] by lia.
    + assert (i = 0 ∨ i = 1 ∨ i = 2 ∨ i = 3 ∨ i = 4 ∨ i = 5 ∨ i = 6)
        as [->|[->|[->|[->|[->|[->| ->]]]]]] by lia; done.
    + assert (2 ^ 7 ≤ 2 ^ i) by (apply Z.pow_le_mono_r; lia). lia.
  - exact (proj2 (proj2 (procserv_find_device_failure
                    path_zero 1408237568 8192 sample_world ltac:(lia))
                    13 ltac:(lia) eq_refl)
             3 [4; 5] eq_refl eq_refl).
Defined.

(** C7 as stated fails at the size [-2147483648]: it is no power of two, its
    32-bit pattern is that of [1 << 31], and the call allocates a slot and
    asks the device directory for a region of size exponent 31; where the
    directory has such a region the call succeeds and returns the slot. *)
Lemma procserv_find_device_int_min :
  (∀ i, 0 ≤ i < 32 → -2147483648 ≠ 2 ^ i) ∧
  procserv_find_device path_zero 1408237568 (-2147483648) sample_world
  = Done (mk_path 0 32 2)
         (log_all [EvCSpaceAlloc (Some 3);
                   EvGetFrameCap 1408237568 31 3 seL4_FailedLookup;
                   EvCSpaceFree 3] sample_world)
  ∧ procserv_find_device path_zero 1408237568 (-2147483648) sample_world
    ≠ Done (set_capPtr path_zero 0) sample_world
  ∧ ∃ s', procserv_find_device path_zero 2147483648 (-2147483648)
            sample_world_large_device
          = Done (mk_path 3 32 2) s'.
Proof.
  split; [|split; [|split]].
  - intros i Hi. assert (0 < 2 ^ i) by (apply Z.pow_pos_nonneg; lia). lia.
  - reflexivity.
  - discriminate.
  - eexists. reflexivity.
Qed.

(** ** Frame data transfer *)

Lemma set_pmem_id s : set_pmem (k_pmem (kernel s)) s = s.
Proof. by destruct s as [? [] ?]. Qed.

Lemma page_size_eq : REFOS_PAGE_SIZE = 4096.
Proof. reflexivity. Qed.

(** The page and the offset of an address inside page [vpn]. *)
Lemma page_of_address va vpn :
  vpn * REFOS_PAGE_SIZE ≤ va < (vpn + 1) * REFOS_PAGE_SIZE →
  va / REFOS_PAGE_SIZE = vpn ∧
  va mod REFOS_PAGE_SIZE = va - vpn * REFOS_PAGE_SIZE.
Proof. rewrite page_size_eq. intros H. Z.div_mod_to_equations. lia. Qed.

Lemma store_bytes_lookup_below bs : ∀ pa m a,
  a < pa → store_bytes pa bs m !! a = m !! a.
Proof.
  induction bs as [|b bs IH]; intros pa m a Ha; [done|]. simpl.
  rewrite IH by lia. apply lookup_insert_ne. lia.
Qed.

(** What was stored is what is read. *)
Lemma load_store_bytes bs : ∀ pa m,
  load_bytes pa (length bs) (store_bytes pa bs m) = bs.
Proof.
  induction bs as [|b bs IH]; intros pa m; [done|]. simpl.
  rewrite store_bytes_lookup_below by lia.
  rewrite lookup_insert_eq. simpl. by rewrite IH.
Qed.

Section FrameTransfer.

Variable CONFIG_ARCH_ARM : bool.
Variable w : Z.

Lemma vm_translate_in_page s va vpn pa r :
  k_page_table (kernel s) !! vpn = Some (pa, r) →
  vpn * REFOS_PAGE_SIZE ≤ va < (vpn + 1) * REFOS_PAGE_SIZE →
  vm_translate (kernel s) va = Some (pa + (va - vpn * REFOS_PAGE_SIZE), r).
Proof.
  intros Hpt Hva. unfold vm_translate.
  destruct (page_of_address va vpn Hva) as [-> ->]. by rewrite Hpt.
Qed.

(** A store of [bs] that stays inside a writable page goes to the frame
    behind the page, and changes nothing else. *)
Lemma vm_store_bytes_in_page vpn pa r bs : ∀ va s,
  k_page_table (kernel s) !! vpn = Some (pa, r) →
  Z.testbit r 0 = true →
  vpn * REFOS_PAGE_SIZE ≤ va →
  va + Z.of_nat (length bs) ≤ (vpn + 1) * REFOS_PAGE_SIZE →
  (vpn + 1) * REFOS_PAGE_SIZE ≤ 2 ^ w → 0 ≤ vpn →
  vm_store_bytes w va bs s =
    Done tt (set_pmem (store_bytes (pa + (va - vpn * REFOS_PAGE_SIZE)) bs
                         (k_pmem (kernel s))) s).
Proof.
  induction bs as [|b bs IH]; intros va s Hpt Hr Hlo Hhi Hw Hvpn.
  - simpl. unfold ret. by rewrite set_pmem_id.
  - simpl in *. unfold bind, vm_store. run.
    rewrite (vm_translate_in_page s va vpn pa r) by (done || lia).
    rewrite Hr. simpl. destruct bs as [|b' bs].
    + simpl. done.
    + assert (Hwrap : wrap w (va + 1) = va + 1).
      { unfold wrap. apply Z.mod_small. rewrite page_size_eq in *.
        simpl length in Hhi. lia. }
      rewrite Hwrap, IH; try done; try lia.
      simpl.
      by replace (pa + (va + 1 - vpn * REFOS_PAGE_SIZE))
        with (pa + (va - vpn * REFOS_PAGE_SIZE) + 1) by lia.
Qed.

(** A load that stays inside a readable page reads the frame behind the
    page, and changes nothing. *)
Lemma vm_load_bytes_in_page vpn pa r n : ∀ va s,
  k_page_table (kernel s) !! vpn = Some (pa, r) →
  Z.testbit r 1 = true →
  vpn * REFOS_PAGE_SIZE ≤ va →
  va + Z.of_nat n ≤ (vpn + 1) * REFOS_PAGE_SIZE →
  (vpn + 1) * REFOS_PAGE_SIZE ≤ 2 ^ w → 0 ≤ vpn →
  vm_load_bytes w va n s =
    Done (load_bytes (pa + (va - vpn * REFOS_PAGE_SIZE)) n (k_pmem (kernel s))) s.
Proof.
  induction n as [|n IH]; intros va s Hpt Hr Hlo Hhi Hw Hvpn; [done|].
  cbn [vm_load_bytes]. unfold bind at 1. unfold vm_load, bind, get.
  rewrite (vm_translate_in_page s va vpn pa r) by (done || lia).
  rewrite Hr. unfold ret at 1. destruct n as [|n].
  - done.
  - assert (Hwrap : wrap w (va + 1) = va + 1).
    { unfold wrap. apply Z.mod_small. rewrite page_size_eq in *. lia. }
    rewrite Hwrap, IH; try done; try lia.
    simpl.
    by replace (pa + (va + 1 - vpn * REFOS_PAGE_SIZE))
      with (pa + (va - vpn * REFOS_PAGE_SIZE) + 1) by lia.
Qed.


(** *** The steps of a transfer *)

Lemma vspace_map_pages_ok s frame vpn pa r :
  mappable_at w s frame vpn pa r →
  vspace_map_pages w frame seL4_AllRights seL4_PageBits s
  = Done (vpn * REFOS_PAGE_SIZE) (mapped_world s frame vpn pa r).
Proof.
  intros (Hhd & Hcap & Hvpn & Hw & Hpt).
  unfold vspace_map_pages, mapped_world. run.
  destruct (vspace (procServ s)) as [|v rest]; simplify_eq/=.
  rewrite Hcap, Z.eqb_refl. simpl.
  destruct (Z.ltb_spec 0 vpn); [|lia].
  destruct (Z.leb_spec ((vpn + 1) * REFOS_PAGE_SIZE) (2 ^ w)); [|lia].
  by rewrite bool_decide_eq_true_2.
Qed.

(** Mapping either succeeds, in a world where the frame can be mapped, or
    returns the null address and leaves the resources as they are. *)
Lemma vspace_map_pages_cases s frame :
  (∃ vpn pa r, mappable_at w s frame vpn pa r) ∨
  vspace_map_pages w frame seL4_AllRights seL4_PageBits s
  = Done 0 (log (EvMapPages frame 0) s).
Proof.
  unfold vspace_map_pages, mappable_at. run.
  destruct (vspace (procServ s)) as [|vpn rest]; [by right|].
  destruct (k_cnode (kernel s) !! frame) as [[?|pa bits r|?]|] eqn:Hcap;
    try by right.
  destruct (Z.eqb_spec bits seL4_PageBits) as [->|]; [|by right].
  destruct (Z.ltb_spec 0 vpn); [|by right].
  destruct (Z.leb_spec ((vpn + 1) * REFOS_PAGE_SIZE) (2 ^ w)); [|by right].
  simpl. case_bool_decide; [|by right].
  left. by exists vpn, pa, r.
Qed.

Lemma mappable_at_not_null s frame vpn pa r :
  mappable_at w s frame vpn pa r → (vpn * REFOS_PAGE_SIZE =? 0) = false.
Proof.
  intros (_ & _ & Hvpn & _). apply Z.eqb_neq. rewrite page_size_eq. lia.
Qed.

Lemma vm_store_pmem va b s :
  ∃ m, vm_store va b s = Done tt (set_pmem m s) ∨
       vm_store va b s = Fault (set_pmem m s).
Proof.
  unfold vm_store, bind, get.
  destruct (vm_translate (kernel s) va) as [[pa r]|].
  - destruct (Z.testbit r 0).
    + eexists. by left.
    + exists (k_pmem (kernel s)). right. by rewrite set_pmem_id.
  - exists (k_pmem (kernel s)). right. by rewrite set_pmem_id.
Qed.

(** A copy into mapped memory changes physical memory only, whether it
    completes or faults. *)
Lemma vm_store_bytes_pmem bs : ∀ va s,
  ∃ m, vm_store_bytes w va bs s = Done tt (set_pmem m s) ∨
       vm_store_bytes w va bs s = Fault (set_pmem m s).
Proof.
  induction bs as [|b bs IH]; intros va s.
  - exists (k_pmem (kernel s)). left. simpl. unfold ret. by rewrite set_pmem_id.
  - simpl. unfold bind. destruct (vm_store_pmem va b s) as [m [-> | ->]].
    + destruct (IH (wrap w (va + 1)) (set_pmem m s)) as [m' [-> | ->]];
        exists m'; [by left|by right].
    + exists m. by right.
Qed.

Lemma memcpy_to_vm_pmem dst src n s :
  ∃ m, memcpy_to_vm w dst src n s = Done tt (set_pmem m s) ∨
       memcpy_to_vm w dst src n s = Fault (set_pmem m s).
Proof.
  unfold memcpy_to_vm. destruct (Z.of_nat (length src) <? n).
  - exists (k_pmem (kernel s)). right. unfold fault. by rewrite set_pmem_id.
  - apply vm_store_bytes_pmem.
Qed.

Lemma vm_load_pure va s :
  (∃ b, vm_load va s = Done b s) ∨ vm_load va s = Fault s.
Proof.
  unfold vm_load, bind, get.
  destruct (vm_translate (kernel s) va) as [[pa r]|]; [|by right].
  destruct (Z.testbit r 1); [|by right]. left. by eexists.
Qed.

(** A copy out of mapped memory changes nothing. *)
Lemma vm_load_bytes_pure n : ∀ va s,
  (∃ bs, vm_load_bytes w va n s = Done bs s) ∨ vm_load_bytes w va n s = Fault s.
Proof.
  induction n as [|n IH]; intros va s.
  - left. by eexists.
  - cbn [vm_load_bytes]. unfold bind.
    destruct (vm_load_pure va s) as [[b ->] | ->]; [|by right].
    destruct (IH (wrap w (va + 1)) s) as [[bs ->] | ->].
    + left. by eexists.
    + by right.
Qed.

Lemma memcpy_from_vm_pure dst src n s :
  (∃ dst', memcpy_from_vm w dst src n s = Done dst' s) ∨
  memcpy_from_vm w dst src n s = Fault s.
Proof.
  unfold memcpy_from_vm. destruct (Z.of_nat (length dst) <? n); [by right|].
  unfold bind. destruct (vm_load_bytes_pure (Z.to_nat n) src s) as [[bs ->] | ->].
  - left. by eexists.
  - by right.
Qed.

Lemma procserv_flush_frame frame s :
  procserv_flush CONFIG_ARCH_ARM (Some [frame]) 1 s
  = Done tt (log_all (flush_events CONFIG_ARCH_ARM frame) s).
Proof.
  unfold procserv_flush, flush_events. destruct CONFIG_ARCH_ARM.
  - by rewrite procserv_flush_loop_spec by (simpl; lia).
  - unfold ret. by rewrite log_all_nil.
Qed.

(** Unmapping the page of a transfer gives back the address space the
    transfer started from. *)
Lemma vspace_unmap_restores s frame vpn pa r m evs :
  head (vspace (procServ s)) = Some vpn →
  k_page_table (kernel s) !! vpn = None →
  vspace_unmap_pages (vpn * REFOS_PAGE_SIZE)
    (log_all evs (set_pmem m (mapped_world s frame vpn pa r)))
  = Done tt (log_all (EvMapPages frame (vpn * REFOS_PAGE_SIZE)
                        :: evs ++ [EvUnmapPages (vpn * REFOS_PAGE_SIZE)])
               (set_pmem m s)).
Proof.
  intros Hhd Hpt. unfold vspace_unmap_pages. run.
  rewrite Z.div_mul by (rewrite page_size_eq; lia).
  rewrite lookup_insert_eq. simpl. f_equal.
  destruct s as [[? vs ? ? ? ?] [? pt ? ? ?] tr]. simpl in *.
  destruct vs as [|v rest]; simplify_eq/=.
  unfold log_all, log, set_page_table, set_vspace, set_pmem. simpl.
  rewrite delete_insert_id by done.
  by rewrite rev_app_distr, <- !app_assoc.
Qed.

(** *** The paths through the two transfer functions *)

Lemma procserv_frame_write_rejected frame src len offset s :
  REFOS_PAGE_SIZE < wrap w (offset + len) →
  procserv_frame_write CONFIG_ARCH_ARM w frame src len offset s
  = Done EINVALIDPARAM s.
Proof.
  intros Hgt. unfold procserv_frame_write.
  by destruct (Z.ltb_spec REFOS_PAGE_SIZE (wrap w (offset + len))); [|lia].
Qed.

Lemma procserv_frame_read_rejected frame dst len offset s :
  REFOS_PAGE_SIZE < wrap w (offset + len) →
  procserv_frame_read CONFIG_ARCH_ARM w frame dst len offset s
  = Done (EINVALIDPARAM, dst) s.
Proof.
  intros Hgt. unfold procserv_frame_read.
  by destruct (Z.ltb_spec REFOS_PAGE_SIZE (wrap w (offset + len))); [|lia].
Qed.

Lemma procserv_frame_write_map_failed frame src len offset s s1 :
  wrap w (offset + len) ≤ REFOS_PAGE_SIZE →
  vspace_map_pages w frame seL4_AllRights seL4_PageBits s = Done 0 s1 →
  procserv_frame_write CONFIG_ARCH_ARM w frame src len offset s = Done ENOMEM s1.
Proof.
  intros Hle Hmap. unfold procserv_frame_write.
  destruct (Z.ltb_spec REFOS_PAGE_SIZE (wrap w (offset + len))); [lia|].
  unfold bind. by rewrite Hmap.
Qed.

Lemma procserv_frame_read_map_failed frame dst len offset s s1 :
  wrap w (offset + len) ≤ REFOS_PAGE_SIZE →
  vspace_map_pages w frame seL4_AllRights seL4_PageBits s = Done 0 s1 →
  procserv_frame_read CONFIG_ARCH_ARM w frame dst len offset s
  = Done (ENOMEM, dst) s1.
Proof.
  intros Hle Hmap. unfold procserv_frame_read.
  destruct (Z.ltb_spec REFOS_PAGE_SIZE (wrap w (offset + len))); [lia|].
  unfold bind. by rewrite Hmap.
Qed.

(** A failed mapping leaves the server and the kernel objects as they are. *)
Lemma vspace_map_pages_null s frame s1 :
  vspace_map_pages w frame seL4_AllRights seL4_PageBits s = Done 0 s1 →
  s1 = log (EvMapPages frame 0) s.
Proof.
  intros Hnull.
  destruct (vspace_map_pages_cases s frame) as [(vpn & pa & r & Hmap) | Hfail].
  - rewrite (vspace_map_pages_ok _ _ _ _ _ Hmap) in Hnull.
    apply mappable_at_not_null, Z.eqb_neq in Hmap. by simplify_eq.
  - rewrite Hfail in Hnull. by simplify_eq.
Qed.

(** Once the frame is mapped, a write ends when the copy ends: with
    [ESUCCESS] and the frame unmapped when the copy completes, with the
    fault when it faults.  Physical memory is as the copy leaves it. *)
Lemma procserv_frame_write_mapped frame src len offset s vpn pa r :
  wrap w (offset + len) ≤ REFOS_PAGE_SIZE →
  mappable_at w s frame vpn pa r →
  ∃ m,
    (memcpy_to_vm w (wrap w (vpn * REFOS_PAGE_SIZE + offset)) src len
       (mapped_world s frame vpn pa r)
     = Done tt (set_pmem m (mapped_world s frame vpn pa r)) ∧
     procserv_frame_write CONFIG_ARCH_ARM w frame src len offset s
     = Done ESUCCESS
         (log_all (transfer_events CONFIG_ARCH_ARM frame (vpn * REFOS_PAGE_SIZE))
            (set_pmem m s)))
    ∨
    (memcpy_to_vm w (wrap w (vpn * REFOS_PAGE_SIZE + offset)) src len
       (mapped_world s frame vpn pa r)
     = Fault (set_pmem m (mapped_world s frame vpn pa r)) ∧
     procserv_frame_write CONFIG_ARCH_ARM w frame src len offset s
     = Fault (set_pmem m (mapped_world s frame vpn pa r))).
Proof.
  intros Hle Hmap.
  remember (procserv_frame_write CONFIG_ARCH_ARM w frame src len offset s)
    as o eqn:Ho.
  unfold procserv_frame_write in Ho.
  destruct (Z.ltb_spec REFOS_PAGE_SIZE (wrap w (offset + len))); [lia|].
  unfold bind at 1 in Ho.
  rewrite (vspace_map_pages_ok _ _ _ _ _ Hmap) in Ho.
  rewrite (mappable_at_not_null _ _ _ _ _ Hmap) in Ho.
  unfold bind at 1 in Ho.
  destruct (memcpy_to_vm_pmem (wrap w (vpn * REFOS_PAGE_SIZE + offset)) src len
              (mapped_world s frame vpn pa r)) as [m [Hcopy | Hcopy]];
    rewrite Hcopy in Ho; exists m.
  - left. split; [done|].
    unfold bind in Ho. rewrite procserv_flush_frame in Ho.
    destruct Hmap as (Hhd & _ & _ & _ & Hpt).
    by rewrite vspace_unmap_restores in Ho.
  - by right.
Qed.

(** The same for a read, which leaves physical memory as it is. *)
Lemma procserv_frame_read_mapped frame dst len offset s vpn pa r :
  wrap w (offset + len) ≤ REFOS_PAGE_SIZE →
  mappable_at w s frame vpn pa r →
  let s2 := log_all (flush_events CONFIG_ARCH_ARM frame)
              (mapped_world s frame vpn pa r) in
  (∃ dst',
     memcpy_from_vm w dst (wrap w (vpn * REFOS_PAGE_SIZE + offset)) len s2
     = Done dst' s2 ∧
     procserv_frame_read CONFIG_ARCH_ARM w frame dst len offset s
     = Done (ESUCCESS, dst')
         (log_all (transfer_events CONFIG_ARCH_ARM frame (vpn * REFOS_PAGE_SIZE)) s))
  ∨
  (memcpy_from_vm w dst (wrap w (vpn * REFOS_PAGE_SIZE + offset)) len s2
   = Fault s2 ∧
   procserv_frame_read CONFIG_ARCH_ARM w frame dst len offset s = Fault s2).
Proof.
  intros Hle Hmap s2.
  remember (procserv_frame_read CONFIG_ARCH_ARM w frame dst len offset s)
    as o eqn:Ho.
  unfold procserv_frame_read in Ho.
  destruct (Z.ltb_spec REFOS_PAGE_SIZE (wrap w (offset + len))); [lia|].
  unfold bind at 1 in Ho.
  rewrite (vspace_map_pages_ok _ _ _ _ _ Hmap) in Ho.
  rewrite (mappable_at_not_null _ _ _ _ _ Hmap) in Ho.
  unfold bind at 1 in Ho. rewrite procserv_flush_frame in Ho.
  unfold bind at 1 in Ho. fold s2 in Ho.
  destruct (memcpy_from_vm_pure dst (wrap w (vpn * REFOS_PAGE_SIZE + offset)) len s2)
    as [[dst' Hcopy] | Hcopy]; rewrite Hcopy in Ho.
  - left. exists dst'. split; [done|].
    unfold bind, s2 in Ho. destruct Hmap as (Hhd & _ & _ & _ & Hpt).
    rewrite <- (set_pmem_id (mapped_world s frame vpn pa r)) in Ho.
    change (k_pmem (kernel (mapped_world s frame vpn pa r)))
      with (k_pmem (kernel s)) in Ho.
    rewrite vspace_unmap_restores in Ho by done.
    by rewrite set_pmem_id in Ho.
  - by right.
Qed.

(** *** Transfers inside the page *)

Lemma mappable_at_bounds s frame vpn pa r :
  mappable_at w s frame vpn pa r →
  0 < vpn ∧ (vpn + 1) * REFOS_PAGE_SIZE ≤ 2 ^ w ∧ 2 * REFOS_PAGE_SIZE ≤ 2 ^ w.
Proof. intros (_ & _ & Hvpn & Hw & _). rewrite page_size_eq in *. lia. Qed.

Lemma in_bounds_check s frame vpn pa r len offset :
  mappable_at w s frame vpn pa r →
  0 ≤ offset → 0 ≤ len → offset + len ≤ REFOS_PAGE_SIZE →
  (REFOS_PAGE_SIZE <? wrap w (offset + len)) = false.
Proof.
  intros Hmap Ho Hl Hsum. apply mappable_at_bounds in Hmap as (_ & _ & Hw).
  apply Z.ltb_ge. unfold wrap. rewrite page_size_eq in *.
  rewrite Z.mod_small; lia.
Qed.

Lemma mapped_rights r :
  Z.testbit (Z.land r seL4_AllRights) 0 = Z.testbit r 0 ∧
  Z.testbit (Z.land r seL4_AllRights) 1 = Z.testbit r 1.
Proof. rewrite !Z.land_spec. split; apply andb_true_r. Qed.

(** A write inside the page of a writable frame succeeds; it stores the
    first [len] bytes of the source at [offset] in the frame and gives the
    address space back. *)
Lemma procserv_frame_write_in_page s frame vpn pa r src len offset :
  mappable_at w s frame vpn pa r →
  Z.testbit r 0 = true →
  0 ≤ offset → 0 ≤ len → offset + len ≤ REFOS_PAGE_SIZE →
  len ≤ Z.of_nat (length src) →
  procserv_frame_write CONFIG_ARCH_ARM w frame src len offset s
  = Done ESUCCESS
      (log_all (transfer_events CONFIG_ARCH_ARM frame (vpn * REFOS_PAGE_SIZE))
         (set_pmem (store_bytes (pa + offset) (take (Z.to_nat len) src)
                      (k_pmem (kernel s))) s)).
Proof.
  intros Hmap Hr Ho Hl Hsum Hsrc. unfold procserv_frame_write.
  rewrite (in_bounds_check s frame vpn pa r) by done.
  unfold bind at 1. rewrite (vspace_map_pages_ok _ _ _ _ _ Hmap).
  rewrite (mappable_at_not_null _ _ _ _ _ Hmap). unfold bind at 1.
  pose proof (mappable_at_bounds _ _ _ _ _ Hmap) as (Hvpn & Hw & Hw2).
  assert (Hcopy :
    memcpy_to_vm w (wrap w (vpn * REFOS_PAGE_SIZE + offset)) src len
      (mapped_world s frame vpn pa r)
    = Done tt (set_pmem (store_bytes (pa + offset) (take (Z.to_nat len) src)
                           (k_pmem (kernel s)))
                 (mapped_world s frame vpn pa r))).
  { unfold memcpy_to_vm. destruct (Z.ltb_spec (Z.of_nat (length src)) len); [lia|].
    destruct (decide (len = 0)) as [->|Hlen].
    - simpl. unfold ret. by rewrite <- (set_pmem_id (mapped_world _ _ _ _ _)) at 1.
    - assert (Hva : wrap w (vpn * REFOS_PAGE_SIZE + offset)
                    = vpn * REFOS_PAGE_SIZE + offset).
      { unfold wrap. apply Z.mod_small. rewrite page_size_eq in *. lia. }
      rewrite Hva.
      rewrite (vm_store_bytes_in_page vpn pa (Z.land r seL4_AllRights)).
      + do 3 f_equal. lia.
      + unfold mapped_world. simpl. apply lookup_insert_eq.
      + by rewrite (proj1 (mapped_rights r)).
      + lia.
      + rewrite length_take. lia.
      + done.
      + lia. }
  rewrite Hcopy. unfold bind. rewrite procserv_flush_frame.
  destruct Hmap as (Hhd & _ & _ & _ & Hpt).
  by rewrite vspace_unmap_restores.
Qed.

(** A read inside the page of a readable frame succeeds; it replaces the
    first [len] bytes of the destination by the bytes at [offset] in the
    frame and gives the address space back. *)
Lemma procserv_frame_read_in_page s frame vpn pa r dst len offset :
  mappable_at w s frame vpn pa r →
  Z.testbit r 1 = true →
  0 ≤ offset → 0 ≤ len → offset + len ≤ REFOS_PAGE_SIZE →
  len ≤ Z.of_nat (length dst) →
  procserv_frame_read CONFIG_ARCH_ARM w frame dst len offset s
  = Done (ESUCCESS,
          load_bytes (pa + offset) (Z.to_nat len) (k_pmem (kernel s))
            ++ drop (Z.to_nat len) dst)
      (log_all (transfer_events CONFIG_ARCH_ARM frame (vpn * REFOS_PAGE_SIZE)) s).
Proof.
  intros Hmap Hr Ho Hl Hsum Hdst. unfold procserv_frame_read.
  rewrite (in_bounds_check s frame vpn pa r) by done.
  unfold bind at 1. rewrite (vspace_map_pages_ok _ _ _ _ _ Hmap).
  rewrite (mappable_at_not_null _ _ _ _ _ Hmap). unfold bind at 1.
  rewrite procserv_flush_frame. unfold bind at 1.
  pose proof (mappable_at_bounds _ _ _ _ _ Hmap) as (Hvpn & Hw & Hw2).
  set (s2 := log_all (flush_events CONFIG_ARCH_ARM frame)
               (mapped_world s frame vpn pa r)).
  assert (Hcopy :
    memcpy_from_vm w dst (wrap w (vpn * REFOS_PAGE_SIZE + offset)) len s2
    = Done (load_bytes (pa + offset) (Z.to_nat len) (k_pmem (kernel s))
              ++ drop (Z.to_nat len) dst) s2).
  { unfold memcpy_from_vm. destruct (Z.ltb_spec (Z.of_nat (length dst)) len); [lia|].
    unfold bind. destruct (decide (len = 0)) as [->|Hlen]; [done|].
    assert (Hva : wrap w (vpn * REFOS_PAGE_SIZE + offset)
                  = vpn * REFOS_PAGE_SIZE + offset).
    { unfold wrap. apply Z.mod_small. rewrite page_size_eq in *. lia. }
    rewrite Hva.
    rewrite (vm_load_bytes_in_page vpn pa (Z.land r seL4_AllRights)).
    - unfold ret. do 3 f_equal. lia.
    - unfold s2, mapped_world. simpl. apply lookup_insert_eq.
    - by rewrite (proj2 (mapped_rights r)).
    - lia.
    - lia.
    - done.
    - lia. }
  rewrite Hcopy. unfold bind, s2. destruct Hmap as (Hhd & _ & _ & _ & Hpt).
  rewrite <- (set_pmem_id (mapped_world s frame vpn pa r)).
  change (k_pmem (kernel (mapped_world s frame vpn pa r)))
    with (k_pmem (kernel s)).
  rewrite vspace_unmap_restores by done. by rewrite set_pmem_id.
Qed.

End FrameTransfer.

(** C1, as the code has it, for [offset + len] within the page.  When the
    frame can be mapped (the slot holds a capability to a frame of one page,
    with the write and the read right, and the address space has a free
    page for it), a write of [len] bytes at [offset] followed by a read of
    [len] bytes at the same offset has both calls return [ESUCCESS] and
    leaves in the first [len] bytes of [dst] exactly the [len] bytes of
    [data]; the rest of [dst] is untouched.  When the frame cannot be
    mapped, the write and the read return [ENOMEM] and copy nothing: the
    world differs by the logged mapping request only, physical memory
    included, and [dst] is returned as it was. *)
Theorem frame_write_read_roundtrip
    (CONFIG_ARCH_ARM : bool) w s frame data dst len offset :
  0 ≤ offset → 0 ≤ len → offset + len ≤ REFOS_PAGE_SIZE →
  (∀ vpn pa r,
     mappable_at w s frame vpn pa r →
     Z.testbit r 0 = true → Z.testbit r 1 = true →
     len ≤ Z.of_nat (length data) → len ≤ Z.of_nat (length dst) →
     ∃ s1 s2,
       procserv_frame_write CONFIG_ARCH_ARM w frame data len offset s
         = Done ESUCCESS s1 ∧
       procserv_frame_read CONFIG_ARCH_ARM w frame dst len offset s1
         = Done (ESUCCESS, take (Z.to_nat len) data ++ drop (Z.to_nat len) dst) s2)
  ∧
  ((∀ vpn pa r, ¬ mappable_at w s frame vpn pa r) →
   procserv_frame_write CONFIG_ARCH_ARM w frame data len offset s
     = Done ENOMEM (log (EvMapPages frame 0) s) ∧
   procserv_frame_read CONFIG_ARCH_ARM w frame dst len offset s
     = Done (ENOMEM, dst) (log (EvMapPages frame 0) s) ∧
   k_pmem (kernel (log (EvMapPages frame 0) s)) = k_pmem (kernel s)).
Proof.
  intros Ho Hl Hsum. split.
  - intros vpn pa r Hmap Hwr Hrd Hdata Hdst. eexists _, _. split.
    + by apply (procserv_frame_write_in_page _ _ _ _ vpn pa r).
    + rewrite (procserv_frame_read_in_page _ _ _ _ vpn pa r); try done.
      simpl. do 3 f_equal.
      rewrite <- (load_store_bytes (take (Z.to_nat len) data) (pa + offset)
                    (k_pmem (kernel s))) at 2.
      f_equal. rewrite length_take. lia.
  - intros Hno.
    destruct (vspace_map_pages_cases w s frame) as [(vpn & pa & r & Hmap) | Hfail].
    { by destruct (Hno vpn pa r). }
    assert (Hle : wrap w (offset + len) ≤ REFOS_PAGE_SIZE).
    { unfold wrap. destruct (Z.eq_dec (2 ^ w) 0) as [->|Hnz].
      - by rewrite Z.mod_0_r.
      - pose proof (Z.pow_nonneg 2 w ltac:(lia)).
        etrans; [apply Z.mod_le; lia|done]. }
    split; [|split; [|done]].
    + by apply procserv_frame_write_map_failed.
    + by apply procserv_frame_read_map_failed.
Qed.

Lemma sample_world_mappable : mappable_at 32 sample_world 20 16 65536 seL4_AllRights.
Proof. repeat split; try reflexivity. rewrite page_size_eq. lia. Qed.

Lemma frame_write_read_roundtrip_witness :
  (∃ s1 s2,
     procserv_frame_write true 32 20 [x01; x02; x03] 3 5 sample_world
       = Done ESUCCESS s1 ∧
     procserv_frame_read true 32 20 [x00; x00; x00; x00] 3 5 s1
       = Done (ESUCCESS,
               take (Z.to_nat 3) [x01; x02; x03]
                 ++ drop (Z.to_nat 3) [x00; x00; x00; x00]) s2)
  ∧
  (procserv_frame_write true 32 20 [x01; x02; x03] 3 5 sample_world_no_page
     = Done ENOMEM (log (EvMapPages 20 0) sample_world_no_page) ∧
   procserv_frame_read true 32 20 [x00; x00; x00; x00] 3 5 sample_world_no_page
     = Done (ENOMEM, [x00; x00; x00; x00])
         (log (EvMapPages 20 0) sample_world_no_page) ∧
   k_pmem (kernel (log (EvMapPages 20 0) sample_world_no_page))
     = k_pmem (kernel sample_world_no_page)).
Proof.
  assert (Hpage : 5 + 3 ≤ REFOS_PAGE_SIZE) by (rewrite page_size_eq; lia).
  split.
  - apply (proj1 (frame_write_read_roundtrip true 32 sample_world 20
                    [x01; x02; x03] [x00; x00; x00; x00] 3 5
                    ltac:(lia) ltac:(lia) Hpage)
             16 65536 seL4_AllRights).
    + exact sample_world_mappable.
    + reflexivity.
    + reflexivity.
    + simpl. lia.
    + simpl. lia.
  - apply (proj2 (frame_write_read_roundtrip true 32 sample_world_no_page 20
                    [x01; x02; x03] [x00; x00; x00; x00] 3 5
                    ltac:(lia) ltac:(lia) Hpage)).
    intros vpn pa r (Hhd & _). discriminate Hhd.
Defined.

(** C1 as stated fails: with the address space exhausted, a write of one
    byte at offset 0 of a valid frame returns [ENOMEM]. *)
Lemma frame_write_without_free_page :
  0 + 1 ≤ REFOS_PAGE_SIZE ∧
  procserv_frame_write true 32 20 [x01] 1 0 sample_world_no_page
  = Done ENOMEM (log (EvMapPages 20 0) sample_world_no_page) ∧
  ¬ (∃ s1, procserv_frame_write true 32 20 [x01] 1 0 sample_world_no_page
           = Done ESUCCESS s1).
Proof.
  split; [done|]. split; [reflexivity|]. intros [s1 H]. discriminate H.
Qed.

(** C3: whenever [procserv_frame_write] or [procserv_frame_read] returns,
    the page table of the server's address space and its free pages are
    what they were before the call, and so are the server's state and its
    capability space.  The calls return on rejection by the bounds check
    (with the world untouched), on a failed mapping (with [ENOMEM], the
    server's state and the kernel objects untouched), and on a transfer of
    length 0 of a frame that can be mapped (with [ESUCCESS] and the frame
    unmapped again). *)
Theorem frame_transfer_leaves_no_mapping
    (CONFIG_ARCH_ARM : bool) w frame src dst len offset s :
  (∀ r s',
     procserv_frame_write CONFIG_ARCH_ARM w frame src len offset s = Done r s' →
     k_page_table (kernel s') = k_page_table (kernel s) ∧
     vspace (procServ s') = vspace (procServ s) ∧
     procServ s' = procServ s ∧ k_cnode (kernel s') = k_cnode (kernel s))
  ∧
  (∀ r s',
     procserv_frame_read CONFIG_ARCH_ARM w frame dst len offset s = Done r s' →
     k_page_table (kernel s') = k_page_table (kernel s) ∧
     vspace (procServ s') = vspace (procServ s) ∧
     procServ s' = procServ s ∧ kernel s' = kernel s)
  ∧
  (REFOS_PAGE_SIZE < wrap w (offset + len) →
   procserv_frame_write CONFIG_ARCH_ARM w frame src len offset s
     = Done EINVALIDPARAM s ∧
   procserv_frame_read CONFIG_ARCH_ARM w frame dst len offset s
     = Done (EINVALIDPARAM, dst) s)
  ∧
  (wrap w (offset + len) ≤ REFOS_PAGE_SIZE →
   ∀ s1,
     vspace_map_pages w frame seL4_AllRights seL4_PageBits s = Done 0 s1 →
     procserv_frame_write CONFIG_ARCH_ARM w frame src len offset s
       = Done ENOMEM s1 ∧
     procserv_frame_read CONFIG_ARCH_ARM w frame dst len offset s
       = Done (ENOMEM, dst) s1 ∧
     procServ s1 = procServ s ∧ kernel s1 = kernel s)
  ∧
  (len = 0 → wrap w (offset + len) ≤ REFOS_PAGE_SIZE →
   ∀ vpn pa r,
     mappable_at w s frame vpn pa r →
     let evs := transfer_events CONFIG_ARCH_ARM frame (vpn * REFOS_PAGE_SIZE) in
     procserv_frame_write CONFIG_ARCH_ARM w frame src len offset s
       = Done ESUCCESS (log_all evs s) ∧
     procserv_frame_read CONFIG_ARCH_ARM w frame dst len offset s
       = Done (ESUCCESS, dst) (log_all evs s)).
Proof.
  split; [|split; [|split; [|split]]].
  - intros r s' Hcall.
    destruct (Z.lt_ge_cases REFOS_PAGE_SIZE (wrap w (offset + len))) as [Hgt|Hle].
    { rewrite procserv_frame_write_rejected in Hcall by done. by simplify_eq. }
    destruct (vspace_map_pages_cases w s frame) as [(vpn & pa & r0 & Hmap) | Hfail].
    + destruct (procserv_frame_write_mapped CONFIG_ARCH_ARM w frame src len offset
                  s vpn pa r0 Hle Hmap) as [m [[_ E] | [_ E]]];
        rewrite E in Hcall; by simplify_eq.
    + rewrite (procserv_frame_write_map_failed _ _ _ _ _ _ _ _ Hle Hfail) in Hcall.
      by simplify_eq.
  - intros r s' Hcall.
    destruct (Z.lt_ge_cases REFOS_PAGE_SIZE (wrap w (offset + len))) as [Hgt|Hle].
    { rewrite procserv_frame_read_rejected in Hcall by done. by simplify_eq. }
    destruct (vspace_map_pages_cases w s frame) as [(vpn & pa & r0 & Hmap) | Hfail].
    + destruct (procserv_frame_read_mapped CONFIG_ARCH_ARM w frame dst len offset
                  s vpn pa r0 Hle Hmap) as [[dst' [_ E]] | [_ E]];
        rewrite E in Hcall; by simplify_eq.
    + rewrite (procserv_frame_read_map_failed _ _ _ _ _ _ _ _ Hle Hfail) in Hcall.
      by simplify_eq.
  - intros Hgt. split.
    + by apply procserv_frame_write_rejected.
    + by apply procserv_frame_read_rejected.
  - intros Hle s1 Hnull. split; [|split].
    + by apply procserv_frame_write_map_failed.
    + by apply procserv_frame_read_map_failed.
    + apply vspace_map_pages_null in Hnull as ->. done.
  - intros -> Hle vpn pa r Hmap evs. split.
    + destruct (procserv_frame_write_mapped CONFIG_ARCH_ARM w frame src 0 offset
                  s vpn pa r Hle Hmap) as [m [[Hcopy E] | [Hcopy _]]].
      * rewrite E. unfold memcpy_to_vm in Hcopy.
        destruct (Z.ltb_spec (Z.of_nat (length src)) 0); [lia|].
        simpl in Hcopy. injection Hcopy as Hs1.
        subst m. by rewrite set_pmem_id.
      * unfold memcpy_to_vm in Hcopy.
        destruct (Z.ltb_spec (Z.of_nat (length src)) 0); [lia|]. done.
    + destruct (procserv_frame_read_mapped CONFIG_ARCH_ARM w frame dst 0 offset
                  s vpn pa r Hle Hmap) as [[dst' [Hcopy E]] | [Hcopy _]].
      * rewrite E. unfold memcpy_from_vm in Hcopy.
        destruct (Z.ltb_spec (Z.of_nat (length dst)) 0); [lia|].
        simpl in Hcopy. by injection Hcopy as <-.
      * unfold memcpy_from_vm in Hcopy.
        destruct (Z.ltb_spec (Z.of_nat (length dst)) 0); [lia|]. done.
Qed.

Lemma frame_transfer_leaves_no_mapping_witness :
  (procserv_frame_write true 32 20 [x01] 1 4096 sample_world
     = Done EINVALIDPARAM sample_world ∧
   procserv_frame_read true 32 20 [x00] 1 4096 sample_world
     = Done (EINVALIDPARAM, [x00]) sample_world)
  ∧
  (procserv_frame_write true 32 20 [x01] 1 0 sample_world_no_page
     = Done ENOMEM (log (EvMapPages 20 0) sample_world_no_page) ∧
   procserv_frame_read true 32 20 [x00] 1 0 sample_world_no_page
     = Done (ENOMEM, [x00]) (log (EvMapPages 20 0) sample_world_no_page) ∧
   procServ (log (EvMapPages 20 0) sample_world_no_page)
     = procServ sample_world_no_page ∧
   kernel (log (EvMapPages 20 0) sample_world_no_page)
     = kernel sample_world_no_page)
  ∧
  (procserv_frame_write true 32 20 [] 0 4096 sample_world
     = Done ESUCCESS (log_all (transfer_events true 20 (16 * REFOS_PAGE_SIZE))
                        sample_world) ∧
   procserv_frame_read true 32 20 [] 0 4096 sample_world
     = Done (ESUCCESS, [])
         (log_all (transfer_events true 20 (16 * REFOS_PAGE_SIZE)) sample_world)).
Proof.
  split; [|split].
  - apply (frame_transfer_leaves_no_mapping true 32 20 [x01] [x00] 1 4096
             sample_world).
    vm_compute. reflexivity.
  - apply (frame_transfer_leaves_no_mapping true 32 20 [x01] [x00] 1 0
             sample_world_no_page).
    + vm_compute. discriminate.
    + reflexivity.
  - pose proof (frame_transfer_leaves_no_mapping true 32 20 [] [] 0 4096
                  sample_world) as (_ & _ & _ & _ & Hzero).
    apply (Hzero eq_refl) with (pa := 65536) (r := seL4_AllRights);
      [|exact sample_world_mappable].
    vm_compute. discriminate.
Defined.

(** ** The bounds check of the transfer functions *)

Lemma transfer_events_trace (CONFIG_ARCH_ARM : bool) frame addr s :
  trace (log_all (transfer_events CONFIG_ARCH_ARM frame addr) s)
  = (EvUnmapPages addr :: rev (flush_events CONFIG_ARCH_ARM frame))
      ++ EvMapPages frame addr :: trace s.
Proof.
  unfold transfer_events, log_all. simpl.
  rewrite rev_app_distr. simpl. by rewrite <- app_assoc.
Qed.

(** C10: the bounds check of [procserv_frame_write] and
    [procserv_frame_read] is on [offset + len] modulo [2 ^ w].  A call is
    rejected with [EINVALIDPARAM], the world untouched, when the wrapped sum
    exceeds the page size, and only then: otherwise the call is not
    rejected, the mapping request for the frame is the first thing it adds
    to the log, and, the frame once mapped at [addr], the copy is run from
    the wrapped address [addr + offset]: after a write physical memory is as
    the copy leaves it, and a read, the cache synchronisation done, returns
    [ESUCCESS] with the buffer the copy out of the mapped memory produces,
    or faults where that copy faults.  The pair [offset = 2 ^ w - 1],
    [len = 2] has a sum above the page size and a wrapped sum of 1, and its
    copy starts at the last byte below the mapped page. *)
Theorem frame_bounds_check_modular
    (CONFIG_ARCH_ARM : bool) w frame src dst len offset s :
  (REFOS_PAGE_SIZE < wrap w (offset + len) →
   procserv_frame_write CONFIG_ARCH_ARM w frame src len offset s
     = Done EINVALIDPARAM s ∧
   procserv_frame_read CONFIG_ARCH_ARM w frame dst len offset s
     = Done (EINVALIDPARAM, dst) s)
  ∧
  (wrap w (offset + len) ≤ REFOS_PAGE_SIZE →
   (∀ s', procserv_frame_write CONFIG_ARCH_ARM w frame src len offset s
          ≠ Done EINVALIDPARAM s') ∧
   (∀ d s', procserv_frame_read CONFIG_ARCH_ARM w frame dst len offset s
            ≠ Done (EINVALIDPARAM, d) s') ∧
   ∃ addr s1,
     vspace_map_pages w frame seL4_AllRights seL4_PageBits s = Done addr s1 ∧
     trace s1 = EvMapPages frame addr :: trace s ∧
     (∃ evs, trace (final (procserv_frame_write CONFIG_ARCH_ARM w frame src
                             len offset s)) = evs ++ trace s1) ∧
     (∃ evs, trace (final (procserv_frame_read CONFIG_ARCH_ARM w frame dst
                             len offset s)) = evs ++ trace s1) ∧
     (addr ≠ 0 →
      k_pmem (kernel (final (procserv_frame_write CONFIG_ARCH_ARM w frame src
                               len offset s)))
      = k_pmem (kernel (final (memcpy_to_vm w (wrap w (addr + offset)) src len
                                 s1)))) ∧
     (addr ≠ 0 →
      (∃ dst',
         memcpy_from_vm w dst (wrap w (addr + offset)) len
           (log_all (flush_events CONFIG_ARCH_ARM frame) s1)
         = Done dst' (log_all (flush_events CONFIG_ARCH_ARM frame) s1) ∧
         procserv_frame_read CONFIG_ARCH_ARM w frame dst len offset s
         = Done (ESUCCESS, dst')
             (log_all (transfer_events CONFIG_ARCH_ARM frame addr) s))
      ∨
      (memcpy_from_vm w dst (wrap w (addr + offset)) len
         (log_all (flush_events CONFIG_ARCH_ARM frame) s1)
       = Fault (log_all (flush_events CONFIG_ARCH_ARM frame) s1) ∧
       procserv_frame_read CONFIG_ARCH_ARM w frame dst len offset s
       = Fault (log_all (flush_events CONFIG_ARCH_ARM frame) s1))))
  ∧
  (seL4_PageBits ≤ w →
   REFOS_PAGE_SIZE < (2 ^ w - 1) + 2 ∧
   wrap w ((2 ^ w - 1) + 2) ≤ REFOS_PAGE_SIZE ∧
   ∀ vpn, 0 < vpn → (vpn + 1) * REFOS_PAGE_SIZE ≤ 2 ^ w →
     wrap w (vpn * REFOS_PAGE_SIZE + (2 ^ w - 1)) = vpn * REFOS_PAGE_SIZE - 1).
Proof.
  split; [|split].
  - intros Hgt. split.
    + by apply procserv_frame_write_rejected.
    + by apply procserv_frame_read_rejected.
  - intros Hle.
    destruct (vspace_map_pages_cases w s frame) as [(vpn & pa & r & Hmap) | Hfail].
    + pose proof (vspace_map_pages_ok w s frame vpn pa r Hmap) as Hok.
      destruct (procserv_frame_write_mapped CONFIG_ARCH_ARM w frame src len offset
                  s vpn pa r Hle Hmap) as [m Hwr].
      pose proof (procserv_frame_read_mapped CONFIG_ARCH_ARM w frame dst len offset
                    s vpn pa r Hle Hmap) as Hrd. cbv zeta in Hrd.
      split; [|split].
      * intros s'. destruct Hwr as [[_ ->] | [_ ->]]; discriminate.
      * intros d s'. destruct Hrd as [[dst' [_ ->]] | [_ ->]]; discriminate.
      * exists (vpn * REFOS_PAGE_SIZE), (mapped_world s frame vpn pa r).
        split; [done|]. split; [done|]. split; [|split; [|split]].
        -- destruct Hwr as [[_ ->] | [_ ->]]; simpl.
           ++ eexists. simpl. by rewrite rev_app_distr, <- app_assoc.
           ++ by exists [].
        -- destruct Hrd as [[dst' [_ ->]] | [_ ->]].
           ++ eexists. apply transfer_events_trace.
           ++ by eexists.
        -- intros _. destruct Hwr as [[-> ->] | [-> ->]]; done.
        -- intros _. exact Hrd.
    + split; [|split].
      * intros s'.
        rewrite (procserv_frame_write_map_failed _ _ _ _ _ _ _ _ Hle Hfail).
        discriminate.
      * intros d s'.
        rewrite (procserv_frame_read_map_failed _ _ _ _ _ _ _ _ Hle Hfail).
        discriminate.
      * exists 0, (log (EvMapPages frame 0) s). split; [done|]. split; [done|].
        rewrite (procserv_frame_write_map_failed _ _ _ _ _ _ _ _ Hle Hfail).
        rewrite (procserv_frame_read_map_failed _ _ _ _ _ _ _ _ Hle Hfail).
        split; [by exists []|]. split; [by exists []|]. split; done.
  - intros Hw. unfold seL4_PageBits in Hw. rewrite page_size_eq.
    assert (Hpow : 2 ^ 12 ≤ 2 ^ w) by (apply Z.pow_le_mono_r; lia).
    change (2 ^ 12) with 4096 in Hpow. unfold wrap. split; [lia|]. split.
    + replace (2 ^ w - 1 + 2) with (1 + 1 * 2 ^ w) by lia.
      rewrite Z.mod_add by lia. rewrite Z.mod_small; lia.
    + intros vpn Hvpn Hhi.
      replace (vpn * 4096 + (2 ^ w - 1)) with (vpn * 4096 - 1 + 1 * 2 ^ w) by lia.
      rewrite Z.mod_add by lia. rewrite Z.mod_small; lia.
Qed.

Lemma frame_bounds_check_modular_witness :
  (procserv_frame_write true 32 20 [x01; x02] 2 4095 sample_world
     = Done EINVALIDPARAM sample_world ∧
   procserv_frame_read true 32 20 [x00; x00] 2 4095 sample_world
     = Done (EINVALIDPARAM, [x00; x00]) sample_world)
  ∧
  (REFOS_PAGE_SIZE < (2 ^ 32 - 1) + 2 ∧
   wrap 32 ((2 ^ 32 - 1) + 2) ≤ REFOS_PAGE_SIZE ∧
   ∀ vpn, 0 < vpn → (vpn + 1) * REFOS_PAGE_SIZE ≤ 2 ^ 32 →
     wrap 32 (vpn * REFOS_PAGE_SIZE + (2 ^ 32 - 1)) = vpn * REFOS_PAGE_SIZE - 1)
  ∧
  (∀ s', procserv_frame_write true 32 20 [x01; x02] 2 (2 ^ 32 - 1) sample_world
         ≠ Done EINVALIDPARAM s').
Proof.
  split; [|split].
  - apply (frame_bounds_check_modular true 32 20 [x01; x02] [x00; x00] 2 4095
             sample_world).
    vm_compute. reflexivity.
  - apply (frame_bounds_check_modular true 32 20 [x01; x02] [x00; x00] 2 4095
             sample_world).
    vm_compute. discriminate.
  - apply (frame_bounds_check_modular true 32 20 [x01; x02] [x00; x00] 2
             (2 ^ 32 - 1) sample_world).
    vm_compute. discriminate.
Defined.

(** A pair whose sum exceeds the page size without leaving the range of
    [size_t] is rejected, by both functions, with the world untouched. *)
Lemma frame_transfer_rejects_unwrapped_sum
    (CONFIG_ARCH_ARM : bool) w frame src dst len offset s :
  0 ≤ offset → 0 ≤ len → REFOS_PAGE_SIZE < offset + len < 2 ^ w →
  procserv_frame_write CONFIG_ARCH_ARM w frame src len offset s
    = Done EINVALIDPARAM s ∧
  procserv_frame_read CONFIG_ARCH_ARM w frame dst len offset s
    = Done (EINVALIDPARAM, dst) s.
Proof.
  intros Ho Hl Hsum.
  assert (Hwrap : wrap w (offset + len) = offset + len).
  { unfold wrap. apply Z.mod_small. lia. }
  split.
  - apply procserv_frame_write_rejected. rewrite Hwrap. lia.
  - apply procserv_frame_read_rejected. rewrite Hwrap. lia.
Qed.

(** C2 fails on the code at [offset = 2 ^ 32 - 1], [len = 2] on a 32-bit
    target: the sum exceeds the page size, yet both transfers map the
    frame, copy, and return [ESUCCESS]; the first byte of the write lands
    in the page of the server's own data below the mapped frame. *)
Lemma frame_transfer_accepts_wrapped_sum :
  REFOS_PAGE_SIZE < 4294967295 + 2 ∧
  ∃ s1 s2,
    procserv_frame_write true 32 20 [x01; x02] 2 4294967295 sample_world_neighbour
      = Done ESUCCESS s1 ∧
    trace s1 = [EvUnmapPages 65536; EvUnifyInstruction 20 0 4096;
                EvMapPages 20 65536] ∧
    k_pmem (kernel s1) !! (131072 + 4095) = Some x01 ∧
    k_pmem (kernel s1) !! 65536 = Some x02 ∧
    procserv_frame_read true 32 20 [x00; x00] 2 4294967295 s1
      = Done (ESUCCESS, [x01; x02]) s2.
Proof.
  split; [done|]. eexists _, _.
  split; [vm_compute; reflexivity|]. by vm_compute.
Qed.

(** ** The invariant of the server state *)

Lemma sample_world_inv : procserv_inv sample_world.
Proof.
  unfold procserv_inv.
  change (vka_free (vka (procServ sample_world))) with [3; 4; 5].
  split; [|split; [|split]].
  - apply NoDup_ListNoDup. repeat constructor; simpl; lia.
  - rewrite !not_elem_of_cons. repeat split; try lia. apply not_elem_of_nil.
  - intros c. rewrite !elem_of_cons, elem_of_nil.
    intros [->|[->|[->|[]]]]; reflexivity.
  - by exists 100.
Qed.

(** Filling the slot the allocator hands out keeps the invariant. *)
Lemma slots_inv_take slot free cn endpoint c :
  slots_inv (slot :: free) cn endpoint →
  slots_inv free (<[slot := c]> cn) endpoint.
Proof.
  intros (Hnd & Hnz & Hempty & ep & Hep).
  apply NoDup_cons in Hnd as [Hnotin Hnd].
  split; [done|]. split; [|split].
  - intros Hin. apply Hnz. by right.
  - intros c' Hc'. rewrite lookup_insert_ne.
    + apply Hempty. by right.
    + intros <-. done.
  - exists ep. rewrite lookup_insert_ne; [done|].
    intros <-. rewrite Hempty in Hep; [done|]. by left.
Qed.

Lemma procserv_mint_badge_inv badge s :
  procserv_inv s → procserv_inv (final (procserv_mint_badge badge s)).
Proof.
  unfold procserv_inv. intros Hinv.
  unfold procserv_mint_badge, vka_cspace_alloc_path, vka_cnode_mint,
    vka_cspace_make_path, vka_cspace_free. run.
  destruct (vka_free (vka (procServ s))) as [|slot rest] eqn:Hfree; simpl.
  { by rewrite Hfree. }
  unfold cnode_mint.
  pose proof Hinv as (_ & _ & Hempty & ep & Hep). rewrite Hep.
  rewrite Hempty by (by left). simpl. by apply slots_inv_take.
Qed.

Lemma procserv_find_device_inv path paddr size s :
  procserv_inv s → procserv_inv (final (procserv_find_device path paddr size s)).
Proof.
  unfold procserv_inv. intros Hinv.
  unfold procserv_find_device.
  generalize (find_sizeBits size 0 32). intros sizeBits.
  unfold vka_cspace_alloc_path, simple_get_frame_cap,
    vka_cspace_make_path, vka_cspace_free. run.
  destruct (sizeBits =? -1); [done|].
  destruct (vka_free (vka (procServ s))) as [|slot rest] eqn:Hfree; simpl.
  { by rewrite Hfree. }
  unfold device_lookup.
  pose proof Hinv as (_ & _ & Hempty & _).
  destruct (bool_decide _); simpl; [|done].
  rewrite Hempty by (by left). simpl.
  destruct (slot =? 0); simpl; by apply slots_inv_take.
Qed.

Lemma procserv_get_irq_handler_inv handler irq s :
  procserv_inv s → procserv_inv (final (procserv_get_irq_handler handler irq s)).
Proof.
  unfold procserv_inv. intros Hinv.
  unfold procserv_get_irq_handler, vka_cspace_alloc_path, seL4_IRQControl_Get,
    vka_cspace_make_path, vka_cspace_free. run.
  destruct (negb _); [done|].
  destruct (vka_free (vka (procServ s))) as [|slot rest] eqn:Hfree; simpl.
  { by rewrite Hfree. }
  destruct ((irq <? 0) || (k_irq_max (kernel s) <? irq)); simpl; [done|].
  destruct (bool_decide _); simpl; [done|].
  pose proof Hinv as (_ & _ & Hempty & _).
  rewrite Hempty by (by left). simpl. by apply slots_inv_take.
Qed.







(** Under the invariant [procserv_mint_badge] fails only when the allocator
    has no slot left, and a slot it returns is not null. *)
Lemma procserv_mint_badge_inv_succeeds badge s slot rest :
  procserv_inv s →
  vka_free (vka (procServ s)) = slot :: rest →
  ∃ s', procserv_mint_badge badge s
        = Done (mk_path slot (vka_depth (vka (procServ s)))
                        (vka_root (vka (procServ s)))) s'
        ∧ slot ≠ 0.
Proof.
  intros (_ & Hnz & Hempty & ep & Hep) Hfree. rewrite Hfree in Hnz, Hempty.
  unfold procserv_mint_badge, vka_cspace_alloc_path, vka_cnode_mint,
    vka_cspace_make_path. run. rewrite Hfree. simpl.
  unfold cnode_mint. rewrite Hep, Hempty by (by left). simpl.
  eexists. split; [done|]. intros ->. apply Hnz. by left.
Qed.

(** * Further properties of [state.c] *)

(** ** Badge minting, continued *)

(** The exact effect of a mint that finds a free, empty slot. *)
Lemma procserv_mint_badge_taken badge s slot rest ep :
  vka_free (vka (procServ s)) = slot :: rest →
  k_cnode (kernel s) !! endpoint (procServ s)
    = Some (EndpointCap ep seL4_AllRights 0) →
  k_cnode (kernel s) !! slot = None →
  procserv_mint_badge badge s
  = Done (mk_path slot (vka_depth (vka (procServ s))) (vka_root (vka (procServ s))))
         (minted_world s slot rest ep badge).
Proof.
  intros Hfree Hep Hslot.
  unfold procserv_mint_badge, vka_cspace_alloc_path, vka_cnode_mint,
    vka_cspace_make_path, minted_world. run.
  rewrite Hfree. simpl. unfold cnode_mint. by rewrite Hep, Hslot.
Qed.

Lemma procserv_inv_head s slot rest :
  procserv_inv s → vka_free (vka (procServ s)) = slot :: rest →
  slot ≠ 0 ∧ (slot ∉ rest) ∧ k_cnode (kernel s) !! slot = None.
Proof.
  intros (Hnd & Hnz & Hempty & _) Hfree. rewrite Hfree in *.
  apply NoDup_cons in Hnd as [Hnotin _]. split; [|split; [done|]].
  - intros ->. apply Hnz. by left.
  - apply Hempty. by left.
Qed.

(** Under the invariant a mint either finds the allocator empty, or takes
    its first free slot. *)
Lemma procserv_mint_badge_inv_cases badge s :
  procserv_inv s →
  (vka_free (vka (procServ s)) = [] ∧
   procserv_mint_badge badge s = Done path_zero (log_all [EvCSpaceAlloc None] s))
  ∨
  (∃ slot rest ep,
     vka_free (vka (procServ s)) = slot :: rest ∧
     slot ≠ 0 ∧ (slot ∉ rest) ∧
     k_cnode (kernel s) !! slot = None ∧
     k_cnode (kernel s) !! endpoint (procServ s)
       = Some (EndpointCap ep seL4_AllRights 0) ∧
     procserv_mint_badge badge s
     = Done (mk_path slot (vka_depth (vka (procServ s)))
                     (vka_root (vka (procServ s))))
            (minted_world s slot rest ep badge)).
Proof.
  intros Hinv.
  destruct (vka_free (vka (procServ s))) as [|slot rest] eqn:Hfree.
  - left. split; [done|].
    unfold procserv_mint_badge, vka_cspace_alloc_path. run. by rewrite Hfree.
  - right. destruct (procserv_inv_head s slot rest Hinv Hfree) as (Hnz & Hnotin & Hslot).
    destruct Hinv as (_ & _ & _ & ep & Hep).
    exists slot, rest, ep. do 5 (split; [done|]).
    by apply procserv_mint_badge_taken.
Qed.

(** X1: in a world that satisfies the invariant, [procserv_mint_badge]
    always returns, and the path it returns has a null slot exactly when the
    allocator has no free slot: it is the only way a mint fails.  The
    invariant holds again afterwards. *)
Theorem procserv_mint_badge_fails_iff_exhausted badge s :
  procserv_inv s →
  ∃ path s',
    procserv_mint_badge badge s = Done path s' ∧
    (capPtr path = 0 ↔ vka_free (vka (procServ s)) = []) ∧
    procserv_inv s'.
Proof.
  intros Hinv. pose proof (procserv_mint_badge_inv badge s Hinv) as Hinv'.
  destruct (procserv_mint_badge_inv_cases badge s Hinv)
    as [[Hfree Hcall] | (slot & rest & ep & Hfree & Hnz & _ & _ & _ & Hcall)];
    rewrite Hcall in Hinv' |- *; eexists _, _.
  - split; [done|]. by split.
  - split; [done|]. split; [|done]. simpl. rewrite Hfree. by split.
Qed.

Lemma procserv_mint_badge_fails_iff_exhausted_witness :
  ∃ path s',
    procserv_mint_badge 7 sample_world = Done path s' ∧
    (capPtr path = 0 ↔ vka_free (vka (procServ sample_world)) = []) ∧
    procserv_inv s'.
Proof.
  exact (procserv_mint_badge_fails_iff_exhausted 7 sample_world sample_world_inv).
Defined.

(** X2: in a world that satisfies the invariant, two successive mints that
    succeed return different slots, and afterwards each of the two slots
    holds a capability to the main endpoint's object with the rights grant
    and write and with the badge of its own call: the badge
    [seL4_CapData_Badge_new] makes of the [int] given (the integer modulo
    [2 ^ seL4_BadgeBits]), which is the given integer itself when that fits
    the badge.  The two badges may be equal: a mint makes no check on the
    badge. *)
Theorem procserv_mint_badge_twice badge1 badge2 s path1 s1 path2 s2 :
  procserv_inv s →
  procserv_mint_badge badge1 s = Done path1 s1 → capPtr path1 ≠ 0 →
  procserv_mint_badge badge2 s1 = Done path2 s2 → capPtr path2 ≠ 0 →
  capPtr path1 ≠ capPtr path2 ∧
  ∃ ep rights,
    rights = Z.lor seL4_CanGrant seL4_CanWrite ∧
    k_cnode (kernel s) !! endpoint (procServ s)
      = Some (EndpointCap ep seL4_AllRights 0) ∧
    k_cnode (kernel s2) !! capPtr path1
      = Some (EndpointCap ep rights (badge1 mod 2 ^ seL4_BadgeBits)) ∧
    k_cnode (kernel s2) !! capPtr path2
      = Some (EndpointCap ep rights (badge2 mod 2 ^ seL4_BadgeBits)) ∧
    (0 ≤ badge1 < 2 ^ seL4_BadgeBits →
     k_cnode (kernel s2) !! capPtr path1 = Some (EndpointCap ep rights badge1)) ∧
    (0 ≤ badge2 < 2 ^ seL4_BadgeBits →
     k_cnode (kernel s2) !! capPtr path2 = Some (EndpointCap ep rights badge2)).
Proof.
  intros Hinv Hcall1 Hnz1 Hcall2 Hnz2.
  pose proof (procserv_mint_badge_inv badge1 s Hinv) as Hinv1.
  destruct (procserv_mint_badge_inv_cases badge1 s Hinv)
    as [[_ E1] | (c1 & rest1 & ep & Hfree1 & _ & Hnotin1 & Hslot1 & Hep & E1)];
    rewrite E1 in Hcall1, Hinv1; simplify_eq/=; try done.
  destruct (procserv_mint_badge_inv_cases badge2 _ Hinv1)
    as [[_ E2] | (c2 & rest2 & ep2 & Hfree2 & _ & _ & Hslot2 & Hep2 & E2)];
    rewrite E2 in Hcall2; simplify_eq/=; try done.
  assert (Hne : c1 ≠ c2).
  { intros ->. apply Hnotin1. by left. }
  split; [done|]. exists ep, (Z.lor seL4_CanGrant seL4_CanWrite).
  split; [done|]. split; [done|].
  assert (Hep12 : ep2 = ep).
  { rewrite lookup_insert_ne in Hep2; [by simplify_eq|].
    intros ->. by rewrite Hslot1 in Hep. }
  subst ep2.
  assert (H1 : (<[c2 := EndpointCap ep (Z.lor seL4_CanGrant seL4_CanWrite)
                          (seL4_CapData_Badge_new badge2)]>
                  (<[c1 := EndpointCap ep (Z.lor seL4_CanGrant seL4_CanWrite)
                             (seL4_CapData_Badge_new badge1)]>
                     (k_cnode (kernel s)))) !! c1
                = Some (EndpointCap ep (Z.lor seL4_CanGrant seL4_CanWrite)
                          (badge1 mod 2 ^ seL4_BadgeBits))).
  { rewrite lookup_insert_ne by done. rewrite lookup_insert_eq.
    by rewrite seL4_CapData_Badge_new_mod. }
  assert (H2 : (<[c2 := EndpointCap ep (Z.lor seL4_CanGrant seL4_CanWrite)
                          (seL4_CapData_Badge_new badge2)]>
                  (<[c1 := EndpointCap ep (Z.lor seL4_CanGrant seL4_CanWrite)
                             (seL4_CapData_Badge_new badge1)]>
                     (k_cnode (kernel s)))) !! c2
                = Some (EndpointCap ep (Z.lor seL4_CanGrant seL4_CanWrite)
                          (badge2 mod 2 ^ seL4_BadgeBits))).
  { rewrite lookup_insert_eq. by rewrite seL4_CapData_Badge_new_mod. }
  split; [exact H1|]. split; [exact H2|]. split.
  - intros Hfit. rewrite H1. by rewrite Z.mod_small.
  - intros Hfit. rewrite H2. by rewrite Z.mod_small.
Qed.

Lemma procserv_mint_badge_twice_witness :
  capPtr (mk_path 3 32 2) ≠ capPtr (mk_path 4 32 2) ∧
  ∃ ep rights,
    rights = Z.lor seL4_CanGrant seL4_CanWrite ∧
    k_cnode (kernel sample_world) !! endpoint (procServ sample_world)
      = Some (EndpointCap ep seL4_AllRights 0) ∧
    k_cnode (kernel (minted_world (minted_world sample_world 3 [4; 5] 100 7)
                       4 [5] 100 9)) !! capPtr (mk_path 3 32 2)
      = Some (EndpointCap ep rights (7 mod 2 ^ seL4_BadgeBits)) ∧
    k_cnode (kernel (minted_world (minted_world sample_world 3 [4; 5] 100 7)
                       4 [5] 100 9)) !! capPtr (mk_path 4 32 2)
      = Some (EndpointCap ep rights (9 mod 2 ^ seL4_BadgeBits)) ∧
    (0 ≤ 7 < 2 ^ seL4_BadgeBits →
     k_cnode (kernel (minted_world (minted_world sample_world 3 [4; 5] 100 7)
                        4 [5] 100 9)) !! capPtr (mk_path 3 32 2)
       = Some (EndpointCap ep rights 7)) ∧
    (0 ≤ 9 < 2 ^ seL4_BadgeBits →
     k_cnode (kernel (minted_world (minted_world sample_world 3 [4; 5] 100 7)
                        4 [5] 100 9)) !! capPtr (mk_path 4 32 2)
       = Some (EndpointCap ep rights 9)).
Proof.
  apply (procserv_mint_badge_twice 7 9 sample_world (mk_path 3 32 2)
           (minted_world sample_world 3 [4; 5] 100 7)).
  - exact sample_world_inv.
  - reflexivity.
  - simpl. lia.
  - reflexivity.
  - simpl. lia.
Defined.



(** ** Release of a capability slot *)

Lemma procserv_nameserv_callback_free_cap_eq cap s :
  cap ≠ 0 →
  procserv_nameserv_callback_free_cap cap s
  = Done tt (log (EvCSpaceFree cap)
               (set_vka_free (cap :: vka_free (vka (procServ s)))
                  (mk_world (procServ s) (cnode_delete (kernel s) cap) (trace s)))).
Proof.
  intros Hcap. unfold procserv_nameserv_callback_free_cap.
  by destruct (Z.eqb_spec cap 0).
Qed.

(** X4: [procserv_nameserv_callback_free_cap] does nothing on the null
    capability.  On any other one it returns with the slot empty and back at
    the head of the allocator's free slots, and with every other slot of the
    capability space holding what it held: the capability is deleted, not
    revoked, so copies in other slots stay.  Page table, physical memory
    and the handler table are untouched. *)
Theorem procserv_nameserv_callback_free_cap_spec cap s :
  procserv_nameserv_callback_free_cap 0 s = Done tt s
  ∧
  (cap ≠ 0 →
   ∃ s',
     procserv_nameserv_callback_free_cap cap s = Done tt s' ∧
     k_cnode (kernel s') !! cap = None ∧
     (∀ c, c ≠ cap → k_cnode (kernel s') !! c = k_cnode (kernel s) !! c) ∧
     vka_free (vka (procServ s')) = cap :: vka_free (vka (procServ s)) ∧
     k_page_table (kernel s') = k_page_table (kernel s) ∧
     k_pmem (kernel s') = k_pmem (kernel s) ∧
     irqHandlerList (procServ s') = irqHandlerList (procServ s)).
Proof.
  split; [done|]. intros Hcap. eexists.
  split; [by apply procserv_nameserv_callback_free_cap_eq|]. simpl.
  split; [apply lookup_delete_eq|]. split; [|done].
  intros c Hc. by apply lookup_delete_ne.
Qed.

(** X5: in a world that satisfies the invariant, a successful
    [procserv_mint_badge] followed by
    [procserv_nameserv_callback_free_cap] on the slot it returned gives back
    the state of the server and the kernel objects the mint started from:
    the slot is free and empty again and nothing else has changed. *)
Theorem procserv_mint_badge_free_cap_roundtrip badge s path s1 :
  procserv_inv s →
  procserv_mint_badge badge s = Done path s1 → capPtr path ≠ 0 →
  ∃ s2,
    procserv_nameserv_callback_free_cap (capPtr path) s1 = Done tt s2 ∧
    procServ s2 = procServ s ∧ kernel s2 = kernel s.
Proof.
  intros Hinv Hcall Hnz.
  destruct (procserv_mint_badge_inv_cases badge s Hinv)
    as [[_ E] | (slot & rest & ep & Hfree & _ & _ & Hslot & _ & E)];
    rewrite E in Hcall; simplify_eq/=; try done.
  eexists. split; [by apply procserv_nameserv_callback_free_cap_eq|].
  destruct s as [[[free rt dp] vs se ept ft irqs] [cn pt pm mx iss] tr].
  simpl in *. subst free. split; [done|].
  unfold cnode_delete. simpl. rewrite lookup_insert_eq.
  by rewrite delete_insert_id.
Qed.

Lemma procserv_mint_badge_free_cap_roundtrip_witness :
  ∃ s2,
    procserv_nameserv_callback_free_cap (capPtr (mk_path 3 32 2))
      (minted_world sample_world 3 [4; 5] 100 7) = Done tt s2 ∧
    procServ s2 = procServ sample_world ∧ kernel s2 = kernel sample_world.
Proof.
  apply (procserv_mint_badge_free_cap_roundtrip 7 sample_world).
  - exact sample_world_inv.
  - reflexivity.
  - simpl. lia.
Defined.

(** X6: [procserv_nameserv_callback_free_cap] keeps the invariant when the
    slot released is not the slot of the main endpoint and is not already
    free. *)
Theorem procserv_nameserv_callback_free_cap_inv cap s :
  procserv_inv s →
  cap ≠ endpoint (procServ s) →
  cap ∉ vka_free (vka (procServ s)) →
  procserv_inv (final (procserv_nameserv_callback_free_cap cap s)).
Proof.
  intros Hinv Hep Hfree. destruct (decide (cap = 0)) as [->|Hcap]; [done|].
  rewrite procserv_nameserv_callback_free_cap_eq by done.
  destruct Hinv as (Hnd & Hnz & Hempty & ep & Hep'). unfold procserv_inv. simpl.
  split; [by apply NoDup_cons|]. split; [|split].
  - rewrite not_elem_of_cons. split; [by intros <-|done].
  - intros c [->|Hc]%elem_of_cons; [apply lookup_delete_eq|].
    rewrite lookup_delete_ne; [by apply Hempty|]. by intros <-.
  - exists ep. by rewrite lookup_delete_ne.
Qed.

Lemma procserv_nameserv_callback_free_cap_inv_witness :
  procserv_inv (final (procserv_nameserv_callback_free_cap 20 sample_world)).
Proof.
  apply (procserv_nameserv_callback_free_cap_inv 20 sample_world).
  - exact sample_world_inv.
  - simpl. lia.
  - change (vka_free (vka (procServ sample_world))) with [3; 4; 5].
    rewrite !not_elem_of_cons. repeat split; try lia. apply not_elem_of_nil.
Defined.

(** ** Device capability resolution, continued *)

(** What the search does, round by round. *)
Lemma find_sizeBits_cases size n : ∀ i,
  0 ≤ i →
  (find_sizeBits size i n = -1 ∧
   ∀ j, i ≤ j < i + Z.of_nat n → sint32 (Z.shiftl 1 j) ≠ size)
  ∨
  (i ≤ find_sizeBits size i n < i + Z.of_nat n ∧
   sint32 (Z.shiftl 1 (find_sizeBits size i n)) = size).
Proof.
  induction n as [|n IH]; intros i Hi.
  - left. split; [done|]. intros j Hj. lia.
  - simpl find_sizeBits.
    destruct (Z.eqb_spec (sint32 (Z.shiftl 1 i)) size) as [Heq|Hne].
    + right. split; [lia|done].
    + destruct (IH (i + 1)) as [[Hres Hno] | [Hres Heq]]; [lia| |].
      * left. split; [done|]. intros j Hj.
        destruct (decide (j = i)) as [->|]; [done|]. apply Hno. lia.
      * right. split; [lia|done].
Qed.

(** The 32-bit pattern of an [int] is [2 ^ i] when the [int] is [2 ^ i],
    for [i] up to 30, or when [i] is 31 and the [int] is the least one. *)
Lemma uint32_pow2_iff size i :
  - 2 ^ 31 ≤ size < 2 ^ 31 → 0 ≤ i < 32 →
  uint32 size = 2 ^ i ↔ (i ≤ 30 ∧ size = 2 ^ i) ∨ (i = 31 ∧ size = - 2 ^ 31).
Proof.
  intros Hs Hi. unfold uint32.
  destruct (decide (i = 31)) as [->|Hne].
  - change (2 ^ 31) with 2147483648 in *. change (2 ^ 32) with 4294967296.
    Z.div_mod_to_equations. lia.
  - assert (Hpos : 0 < 2 ^ i) by (apply Z.pow_pos_nonneg; lia).
    assert (Hlt : 2 ^ i ≤ 2 ^ 30) by (apply Z.pow_le_mono_r; lia).
    change (2 ^ 30) with 1073741824 in Hlt.
    change (2 ^ 31) with 2147483648 in *. change (2 ^ 32) with 4294967296.
    Z.div_mod_to_equations. lia.
Qed.

(** X7: the search of [procserv_find_device] for the size in bits computes
    the base-2 logarithm of the powers of two an [int] can hold, with one
    more case: it yields [k] between 0 and 30 exactly on the size [2 ^ k],
    31 exactly on the least [int], [- 2 ^ 31], and [-1] on every other
    size. *)
Theorem find_sizeBits_log2 size k :
  - 2 ^ 31 ≤ size < 2 ^ 31 →
  find_sizeBits size 0 32 = k ↔
    (0 ≤ k ≤ 30 ∧ size = 2 ^ k) ∨
    (k = 31 ∧ size = - 2 ^ 31) ∨
    (k = -1 ∧ size ≠ - 2 ^ 31 ∧ ∀ i, 0 ≤ i ≤ 30 → size ≠ 2 ^ i).
Proof.
  intros Hs. split.
  - intros <-.
    destruct (find_sizeBits_cases size 32 0) as [[Hres Hno] | [Hres Heq]]; [lia| |].
    + right. right. split; [done|].
      assert (Hpat : ∀ i, 0 ≤ i < 32 → uint32 size ≠ 2 ^ i).
      { intros i Hi Hpow. apply (Hno i); [lia|].
        rewrite shiftl_1_pow by lia. apply sint32_eq_iff; [done| |done].
        apply pow2_range. lia. }
      split.
      * intros Hmin. apply (Hpat 31); [lia|].
        apply uint32_pow2_iff; [done|lia|]. by right.
      * intros i Hi Hpow. apply (Hpat i); [lia|].
        apply uint32_pow2_iff; [done|lia|]. left. split; [lia|done].
    + set (r := find_sizeBits size 0 32) in *.
      rewrite shiftl_1_pow in Heq by lia.
      apply sint32_eq_iff in Heq; [|done|apply pow2_range; lia].
      apply uint32_pow2_iff in Heq as [[Hle Hpow] | [Hr Hmin]]; [| |done|lia].
      * left. split; [lia|done].
      * right. left. done.
  - intros [[Hk Hpow] | [[-> Hmin] | (-> & Hmin & Hno)]].
    + apply find_sizeBits_power; [done|lia|].
      apply uint32_pow2_iff; [done|lia|]. left. split; [lia|done].
    + apply find_sizeBits_power; [done|lia|].
      apply uint32_pow2_iff; [done|lia|]. by right.
    + apply find_sizeBits_no_power; [done|].
      intros i Hi [[Hle Hpow] | [_ Hm]]%uint32_pow2_iff; [|done|done|lia].
      by apply (Hno i); [lia|].
Qed.

Lemma find_sizeBits_log2_witness :
  find_sizeBits 4096 0 32 = 12 ↔
    (0 ≤ 12 ≤ 30 ∧ 4096 = 2 ^ 12) ∨
    (12 = 31 ∧ 4096 = - 2 ^ 31) ∨
    (12 = -1 ∧ 4096 ≠ - 2 ^ 31 ∧ ∀ i, 0 ≤ i ≤ 30 → 4096 ≠ 2 ^ i).
Proof. apply (find_sizeBits_log2 4096 12). lia. Defined.

(** X8: in a world that satisfies the invariant, [procserv_find_device]
    succeeds when the size is a power of two [2 ^ i] (or the least [int],
    for [i = 31]), the allocator has a free slot and the device directory
    has a region of that address and size: it returns, without tripping its
    assertion, the path of the first free slot, which is not null; the slot
    holds a frame capability for the region, has left the free slots, and
    the invariant holds again. *)
Theorem procserv_find_device_success path paddr size i s slot rest :
  procserv_inv s →
  - 2 ^ 31 ≤ size < 2 ^ 31 →
  0 ≤ i < 32 → uint32 size = 2 ^ i →
  vka_free (vka (procServ s)) = slot :: rest →
  (paddr, i) ∈ simpleEnv (procServ s) →
  ∃ s',
    procserv_find_device path paddr size s
    = Done (mk_path slot (vka_depth (vka (procServ s)))
                    (vka_root (vka (procServ s)))) s' ∧
    slot ≠ 0 ∧
    k_cnode (kernel s')
      = <[slot := FrameCap paddr i seL4_AllRights]> (k_cnode (kernel s)) ∧
    vka_free (vka (procServ s')) = rest ∧
    (slot ∉ rest) ∧
    procserv_inv s'.
Proof.
  intros Hinv Hs Hi Hpow Hfree Hdev.
  pose proof (procserv_find_device_inv path paddr size s Hinv) as Hinv'.
  destruct (procserv_inv_head s slot rest Hinv Hfree) as (Hnz & Hnotin & Hslot).
  revert Hinv'. unfold procserv_find_device.
  rewrite (find_sizeBits_power size i) by done.
  destruct (Z.eqb_spec i (-1)) as [|_]; [lia|].
  unfold vka_cspace_alloc_path, simple_get_frame_cap, vka_cspace_make_path. run.
  rewrite Hfree. simpl. unfold device_lookup.
  rewrite bool_decide_eq_true_2 by done. rewrite Hslot. simpl.
  destruct (Z.eqb_spec slot 0) as [|_]; [done|]. simpl.
  intros Hinv'. eexists. split; [reflexivity|]. by do 4 (split; [done|]).
Qed.

Lemma procserv_find_device_success_witness :
  ∃ s',
    procserv_find_device path_zero 1408237568 4096 sample_world
    = Done (mk_path 3 32 2) s' ∧
    3 ≠ 0 ∧
    k_cnode (kernel s')
      = <[3 := FrameCap 1408237568 12 seL4_AllRights]> (k_cnode (kernel sample_world)) ∧
    vka_free (vka (procServ s')) = [4; 5] ∧
    (3 ∉ [4; 5]) ∧
    procserv_inv s'.
Proof.
  apply (procserv_find_device_success path_zero 1408237568 4096 12 sample_world
           3 [4; 5]).
  - exact sample_world_inv.
  - lia.
  - lia.
  - reflexivity.
  - reflexivity.
  - change (simpleEnv (procServ sample_world)) with [(1408237568, 12)].
    apply list_elem_of_singleton. reflexivity.
Defined.

(** ** The IRQ handler cache, continued *)

(** X9: a call of [procserv_get_irq_handler] for a line that has no entry in
    the table succeeds when the allocator's first free slot is empty, the
    line exists on the platform and its handler has not been handed out: it
    returns that slot, which now holds the handler capability of the line
    and has left the free slots; the table maps the line to the slot, and
    the kernel has the line as handed out. *)
Theorem procserv_get_irq_handler_success handler irq s slot rest :
  chash_get (irqHandlerList (procServ s)) irq = 0 →
  vka_free (vka (procServ s)) = slot :: rest →
  k_cnode (kernel s) !! slot = None →
  0 ≤ irq ≤ k_irq_max (kernel s) →
  irq ∉ k_irq_issued (kernel s) →
  ∃ s',
    procserv_get_irq_handler handler irq s = Done slot s' ∧
    k_cnode (kernel s') = <[slot := IRQHandlerCap irq]> (k_cnode (kernel s)) ∧
    irqHandlerList (procServ s') = <[irq := slot]> (irqHandlerList (procServ s)) ∧
    k_irq_issued (kernel s') = {[irq]} ∪ k_irq_issued (kernel s) ∧
    vka_free (vka (procServ s')) = rest.
Proof.
  intros Hget Hfree Hslot Hirq Hissued.
  unfold procserv_get_irq_handler, vka_cspace_alloc_path, seL4_IRQControl_Get,
    vka_cspace_make_path. run.
  rewrite Hget. simpl. rewrite Hfree. simpl.
  destruct (Z.ltb_spec irq 0); [lia|].
  destruct (Z.ltb_spec (k_irq_max (kernel s)) irq); [lia|]. simpl.
  rewrite bool_decide_eq_false_2 by done. rewrite Hslot. simpl.
  eexists. by split.
Qed.

Lemma procserv_get_irq_handler_success_witness :
  ∃ s',
    procserv_get_irq_handler path_zero 5 sample_world = Done 3 s' ∧
    k_cnode (kernel s') = <[3 := IRQHandlerCap 5]> (k_cnode (kernel sample_world)) ∧
    irqHandlerList (procServ s') = <[5 := 3]> (irqHandlerList (procServ sample_world)) ∧
    k_irq_issued (kernel s') = {[5]} ∪ k_irq_issued (kernel sample_world) ∧
    vka_free (vka (procServ s')) = [4; 5].
Proof.
  apply (procserv_get_irq_handler_success path_zero 5 sample_world 3 [4; 5]).
  - reflexivity.
  - reflexivity.
  - reflexivity.
  - simpl. lia.
  - change (k_irq_issued (kernel sample_world)) with (∅ : gset Z).
    apply not_elem_of_empty.
Defined.

(** X10: a call of [procserv_get_irq_handler] for a line that has no entry
    in the table returns 0 when the allocator has no slot, and when the
    kernel refuses the handler (the line does not exist, its handler is
    handed out already, or the slot is occupied); in the second case the
    slot obtained is released again.  Either way the state of the server and
    the kernel objects are as before the call: no slot is lost and the line
    still has no entry, so that a later call asks again. *)
Theorem procserv_get_irq_handler_failure handler irq s :
  chash_get (irqHandlerList (procServ s)) irq = 0 →
  vka_free (vka (procServ s)) = [] ∨
  (∃ slot rest,
     vka_free (vka (procServ s)) = slot :: rest ∧
     (irq < 0 ∨ k_irq_max (kernel s) < irq ∨ irq ∈ k_irq_issued (kernel s) ∨
      is_Some (k_cnode (kernel s) !! slot))) →
  ∃ s',
    procserv_get_irq_handler handler irq s = Done 0 s' ∧
    procServ s' = procServ s ∧ kernel s' = kernel s.
Proof.
  intros Hget Hcase.
  unfold procserv_get_irq_handler, vka_cspace_alloc_path, seL4_IRQControl_Get,
    vka_cspace_make_path, vka_cspace_free. run. rewrite Hget. simpl.
  destruct Hcase as [Hfree | (slot & rest & Hfree & Hrefused)]; rewrite Hfree; simpl.
  { eexists. by split. }
  assert (Hsame :
    mk_procserv (mk_vka (slot :: rest) (vka_root (vka (procServ s)))
                   (vka_depth (vka (procServ s))))
      (vspace (procServ s)) (simpleEnv (procServ s)) (endpoint (procServ s))
      (faketime_ctr (procServ s)) (irqHandlerList (procServ s))
    = procServ s).
  { rewrite <- Hfree. by destruct s as [[[] ?] ?]. }
  destruct (Z.ltb_spec irq 0); simpl.
  { eexists. split; [done|]. simpl. by rewrite Hsame. }
  destruct (Z.ltb_spec (k_irq_max (kernel s)) irq); simpl.
  { eexists. split; [done|]. simpl. by rewrite Hsame. }
  case_bool_decide; simpl.
  { eexists. split; [done|]. simpl. by rewrite Hsame. }
  destruct (k_cnode (kernel s) !! slot) eqn:Hslot; simpl.
  { eexists. split; [done|]. simpl. by rewrite Hsame. }
  destruct Hrefused as [?|[?|[?|[? ?]]]]; done || lia.
Qed.

Lemma procserv_get_irq_handler_failure_witness :
  ∃ s',
    procserv_get_irq_handler path_zero 32 sample_world = Done 0 s' ∧
    procServ s' = procServ sample_world ∧ kernel s' = kernel sample_world.
Proof.
  apply (procserv_get_irq_handler_failure path_zero 32 sample_world).
  - reflexivity.
  - right. exists 3, [4; 5]. split; [reflexivity|]. right. left. simpl. lia.
Defined.

(** *** Soundness of the handler table *)

Lemma chash_get_lookup (t : gmap Z Z) key h :
  chash_get t key = h → h ≠ 0 → t !! key = Some h.
Proof.
  unfold chash_get. destruct (t !! key) as [h'|]; simpl; [by intros ->|].
  by intros <-.
Qed.

Lemma cache_ok_take t cn slot rest c :
  cache_ok t cn (slot :: rest) → cache_ok t (<[slot := c]> cn) rest.
Proof.
  intros Hok irq h Hl Hh. destruct (Hok irq h Hl Hh) as [Hc Hnotin].
  apply not_elem_of_cons in Hnotin as [Hne Hnotin].
  split; [|done]. by rewrite lookup_insert_ne.
Qed.

Lemma cache_ok_take_irq t cn slot rest irq :
  NoDup (slot :: rest) →
  cache_ok t cn (slot :: rest) →
  cache_ok (<[irq := slot]> t) (<[slot := IRQHandlerCap irq]> cn) rest.
Proof.
  intros [Hnotin _]%NoDup_cons Hok irq' h Hl Hh.
  destruct (decide (irq' = irq)) as [->|Hne].
  - rewrite lookup_insert_eq in Hl. simplify_eq.
    split; [apply lookup_insert_eq|done].
  - rewrite lookup_insert_ne in Hl by done.
    by apply (cache_ok_take t cn slot rest (IRQHandlerCap irq) Hok).
Qed.



Lemma procserv_get_irq_handler_cache_inv handler irq s :
  procserv_inv s → irq_cache_inv s →
  irq_cache_inv (final (procserv_get_irq_handler handler irq s)).
Proof.
  unfold irq_cache_inv. intros (Hnd & _) Hok.
  unfold procserv_get_irq_handler, vka_cspace_alloc_path, seL4_IRQControl_Get,
    vka_cspace_make_path, vka_cspace_free. run.
  destruct (negb _); [done|].
  destruct (vka_free (vka (procServ s))) as [|slot rest] eqn:Hfree; simpl.
  { by rewrite Hfree. }
  destruct ((irq <? 0) || (k_irq_max (kernel s) <? irq)); simpl; [done|].
  destruct (bool_decide _); simpl; [done|].
  destruct (k_cnode (kernel s) !! slot); simpl; [done|].
  unfold chash_set. by apply cache_ok_take_irq.
Qed.






Lemma sample_world_cache_inv : irq_cache_inv sample_world.
Proof.
  intros irq h Hl.
  change (irqHandlerList (procServ sample_world)) with (∅ : gmap Z Z) in Hl.
  by rewrite lookup_empty in Hl.
Qed.



(** X12: one slot serves one line.  From a world that satisfies the
    invariant and whose handler table is sound, two successive calls of
    [procserv_get_irq_handler] for different lines that both return a
    non-null handle return different handles. *)
Theorem procserv_get_irq_handler_lines_differ
    handler1 handler2 irq1 irq2 s h1 s1 h2 s2 :
  procserv_inv s → irq_cache_inv s →
  procserv_get_irq_handler handler1 irq1 s = Done h1 s1 → h1 ≠ 0 →
  procserv_get_irq_handler handler2 irq2 s1 = Done h2 s2 → h2 ≠ 0 →
  irq1 ≠ irq2 →
  h1 ≠ h2.
Proof.
  intros Hinv Hok Hcall1 Hh1 Hcall2 Hh2 Hne Heq. subst h2.
  pose proof (procserv_get_irq_handler_inv handler1 irq1 s Hinv) as Hinv1.
  pose proof (procserv_get_irq_handler_cache_inv handler1 irq1 s Hinv Hok) as Hok1.
  rewrite Hcall1 in Hinv1, Hok1. simpl in Hinv1, Hok1.
  pose proof (procserv_get_irq_handler_cache_inv handler2 irq2 s1 Hinv1 Hok1) as Hok2.
  rewrite Hcall2 in Hok2. simpl in Hok2.
  destruct (procserv_get_irq_handler_returns handler1 irq1 s)
    as (ha & sa & Hc1 & Hin1 & _).
  rewrite Hcall1 in Hc1. injection Hc1 as <- <-.
  destruct (procserv_get_irq_handler_returns handler2 irq2 s1)
    as (hb & sb & Hc2 & Hin2 & Hkeep).
  rewrite Hcall2 in Hc2. injection Hc2 as <- <-.
  specialize (Hin1 Hh1). specialize (Hin2 Hh1).
  assert (Hl1 : irqHandlerList (procServ s2) !! irq1 = Some h1).
  { apply chash_get_lookup; [|done]. rewrite Hkeep; [done|]. by rewrite Hin1. }
  assert (Hl2 : irqHandlerList (procServ s2) !! irq2 = Some h1).
  { by apply chash_get_lookup. }
  destruct (Hok2 irq1 h1 Hl1 Hh1) as [Hcap1 _].
  destruct (Hok2 irq2 h1 Hl2 Hh1) as [Hcap2 _].
  rewrite Hcap1 in Hcap2. by simplify_eq.
Qed.

Lemma procserv_get_irq_handler_lines_differ_witness :
  ∃ s1 s2,
    procserv_get_irq_handler path_zero 5 sample_world = Done 3 s1 ∧
    procserv_get_irq_handler path_zero 6 s1 = Done 4 s2 ∧
    3 ≠ 4.
Proof.
  eexists _, _. split; [vm_compute; reflexivity|].
  split; [vm_compute; reflexivity|].
  apply (procserv_get_irq_handler_lines_differ path_zero path_zero 5 6
           sample_world 3
           (final (procserv_get_irq_handler path_zero 5 sample_world)) 4
           (final (procserv_get_irq_handler path_zero 6
                     (final (procserv_get_irq_handler path_zero 5 sample_world))))).
  - exact sample_world_inv.
  - exact sample_world_cache_inv.
  - reflexivity.
  - lia.
  - reflexivity.
  - lia.
  - lia.
Defined.

(** ** Frame data transfer, continued *)

(** Physical memory after a store, address by address. *)
Lemma store_bytes_lookup bs : ∀ pa m a,
  store_bytes pa bs m !! a
  = if decide (pa ≤ a < pa + Z.of_nat (length bs))
    then bs !! Z.to_nat (a - pa)
    else m !! a.
Proof.
  induction bs as [|b bs IH]; intros pa m a.
  - simpl. case_decide; [lia|done].
  - cbn [store_bytes]. rewrite IH. simpl length.
    destruct (decide (a = pa)) as [->|Hne].
    + rewrite decide_False by lia. rewrite decide_True by lia.
      rewrite Z.sub_diag. apply lookup_insert_eq.
    + rewrite lookup_insert_ne by done.
      destruct (decide (pa + 1 ≤ a < pa + 1 + Z.of_nat (length bs))) as [Hin|Hout].
      * rewrite decide_True by lia.
        replace (Z.to_nat (a - pa)) with (S (Z.to_nat (a - (pa + 1)))) by lia.
        done.
      * rewrite decide_False by lia. done.
Qed.

(** Reads of memories that agree on the range agree. *)
Lemma load_bytes_ext n : ∀ pa (m m' : gmap Z byte),
  (∀ a, pa ≤ a < pa + Z.of_nat n → m !! a = m' !! a) →
  load_bytes pa n m = load_bytes pa n m'.
Proof.
  induction n as [|n IH]; intros pa m m' Hagree; [done|].
  simpl. rewrite (Hagree pa) by lia. f_equal. apply IH.
  intros a Ha. apply Hagree. lia.
Qed.

(** X13: a write inside the page of a writable frame that can be mapped
    succeeds and changes physical memory at the [len] addresses from
    [offset] in the frame, which receive the first [len] bytes of the
    source, and nowhere else: the rest of the frame and all other memory
    keep their contents. *)
Theorem procserv_frame_write_effect
    (CONFIG_ARCH_ARM : bool) w s frame vpn pa r src len offset :
  mappable_at w s frame vpn pa r →
  Z.testbit r 0 = true →
  0 ≤ offset → 0 ≤ len → offset + len ≤ REFOS_PAGE_SIZE →
  len ≤ Z.of_nat (length src) →
  ∃ s',
    procserv_frame_write CONFIG_ARCH_ARM w frame src len offset s
      = Done ESUCCESS s' ∧
    (∀ i, 0 ≤ i < len →
       k_pmem (kernel s') !! (pa + offset + i) = src !! Z.to_nat i) ∧
    (∀ a, ¬ (pa + offset ≤ a < pa + offset + len) →
       k_pmem (kernel s') !! a = k_pmem (kernel s) !! a).
Proof.
  intros Hmap Hr Ho Hl Hsum Hsrc. eexists.
  split; [by apply (procserv_frame_write_in_page _ _ _ _ vpn pa r)|].
  simpl. split.
  - intros i Hi. rewrite store_bytes_lookup, length_take.
    rewrite decide_True by lia.
    replace (pa + offset + i - (pa + offset)) with i by lia.
    apply lookup_take_lt. lia.
  - intros a Ha. rewrite store_bytes_lookup, length_take.
    rewrite decide_False by lia. done.
Qed.

Lemma procserv_frame_write_effect_witness :
  ∃ s',
    procserv_frame_write true 32 20 [x01; x02; x03] 3 5 sample_world
      = Done ESUCCESS s' ∧
    (∀ i, 0 ≤ i < 3 →
       k_pmem (kernel s') !! (65536 + 5 + i) = [x01; x02; x03] !! Z.to_nat i) ∧
    (∀ a, ¬ (65536 + 5 ≤ a < 65536 + 5 + 3) →
       k_pmem (kernel s') !! a = k_pmem (kernel sample_world) !! a).
Proof.
  apply (procserv_frame_write_effect true 32 sample_world 20 16 65536
           seL4_AllRights).
  - exact sample_world_mappable.
  - reflexivity.
  - lia.
  - lia.
  - rewrite page_size_eq. lia.
  - simpl. lia.
Defined.

(** X14: the last write wins.  After two writes of [len] bytes at the same
    offset of a frame, a read of [len] bytes at that offset returns the
    bytes of the second write; all three calls succeed. *)
Theorem procserv_frame_write_twice_read
    (CONFIG_ARCH_ARM : bool) w s frame vpn pa r data1 data2 dst len offset :
  mappable_at w s frame vpn pa r →
  Z.testbit r 0 = true → Z.testbit r 1 = true →
  0 ≤ offset → 0 ≤ len → offset + len ≤ REFOS_PAGE_SIZE →
  len ≤ Z.of_nat (length data1) → len ≤ Z.of_nat (length data2) →
  len ≤ Z.of_nat (length dst) →
  ∃ s1 s2 s3,
    procserv_frame_write CONFIG_ARCH_ARM w frame data1 len offset s
      = Done ESUCCESS s1 ∧
    procserv_frame_write CONFIG_ARCH_ARM w frame data2 len offset s1
      = Done ESUCCESS s2 ∧
    procserv_frame_read CONFIG_ARCH_ARM w frame dst len offset s2
      = Done (ESUCCESS, take (Z.to_nat len) data2 ++ drop (Z.to_nat len) dst) s3.
Proof.
  intros Hmap Hwr Hrd Ho Hl Hsum Hd1 Hd2 Hdst. eexists _, _, _. split; [|split].
  - by apply (procserv_frame_write_in_page _ _ _ _ vpn pa r).
  - by apply (procserv_frame_write_in_page _ _ _ _ vpn pa r).
  - rewrite (procserv_frame_read_in_page _ _ _ _ vpn pa r); try done.
    simpl. do 3 f_equal.
    rewrite <- (load_store_bytes (take (Z.to_nat len) data2) (pa + offset)
                  (store_bytes (pa + offset) (take (Z.to_nat len) data1)
                     (k_pmem (kernel s)))) at 2.
    f_equal. rewrite length_take. lia.
Qed.

Lemma procserv_frame_write_twice_read_witness :
  ∃ s1 s2 s3,
    procserv_frame_write true 32 20 [x01; x02] 2 7 sample_world
      = Done ESUCCESS s1 ∧
    procserv_frame_write true 32 20 [x03; x04] 2 7 s1
      = Done ESUCCESS s2 ∧
    procserv_frame_read true 32 20 [x00; x00] 2 7 s2
      = Done (ESUCCESS, take (Z.to_nat 2) [x03; x04] ++ drop (Z.to_nat 2) [x00; x00])
          s3.
Proof.
  apply (procserv_frame_write_twice_read true 32 sample_world 20 16 65536
           seL4_AllRights).
  - exact sample_world_mappable.
  - reflexivity.
  - reflexivity.
  - lia.
  - lia.
  - rewrite page_size_eq. lia.
  - simpl. lia.
  - simpl. lia.
  - simpl. lia.
Defined.

(** X15: a write leaves the rest alone.  A read of a range, in the same
    frame or in another frame, that does not meet the physical range of a
    write returns after the write what it returned before. *)
Theorem procserv_frame_read_after_disjoint_write
    (CONFIG_ARCH_ARM : bool) w s vpn
    frame1 pa1 r1 src len1 offset1 frame2 pa2 r2 dst len2 offset2 :
  mappable_at w s frame1 vpn pa1 r1 → Z.testbit r1 0 = true →
  mappable_at w s frame2 vpn pa2 r2 → Z.testbit r2 1 = true →
  0 ≤ offset1 → 0 ≤ len1 → offset1 + len1 ≤ REFOS_PAGE_SIZE →
  len1 ≤ Z.of_nat (length src) →
  0 ≤ offset2 → 0 ≤ len2 → offset2 + len2 ≤ REFOS_PAGE_SIZE →
  len2 ≤ Z.of_nat (length dst) →
  pa1 + offset1 + len1 ≤ pa2 + offset2 ∨ pa2 + offset2 + len2 ≤ pa1 + offset1 →
  ∃ bytes s0 s1 s2,
    procserv_frame_read CONFIG_ARCH_ARM w frame2 dst len2 offset2 s
      = Done (ESUCCESS, bytes) s0 ∧
    procserv_frame_write CONFIG_ARCH_ARM w frame1 src len1 offset1 s
      = Done ESUCCESS s1 ∧
    procserv_frame_read CONFIG_ARCH_ARM w frame2 dst len2 offset2 s1
      = Done (ESUCCESS, bytes) s2.
Proof.
  intros Hmap1 Hwr Hmap2 Hrd Ho1 Hl1 Hsum1 Hsrc Ho2 Hl2 Hsum2 Hdst Hdisj.
  eexists _, _, _, _. split; [|split].
  - by apply (procserv_frame_read_in_page _ _ _ _ vpn pa2 r2).
  - by apply (procserv_frame_write_in_page _ _ _ _ vpn pa1 r1).
  - rewrite (procserv_frame_read_in_page _ _ _ _ vpn pa2 r2); try done.
    simpl. do 3 f_equal. apply load_bytes_ext. intros a Ha.
    rewrite store_bytes_lookup, length_take. rewrite decide_False by lia. done.
Qed.

Lemma procserv_frame_read_after_disjoint_write_witness :
  ∃ bytes s0 s1 s2,
    procserv_frame_read true 32 20 [x00; x00] 2 0 sample_world
      = Done (ESUCCESS, bytes) s0 ∧
    procserv_frame_write true 32 20 [x01; x02; x03] 3 5 sample_world
      = Done ESUCCESS s1 ∧
    procserv_frame_read true 32 20 [x00; x00] 2 0 s1
      = Done (ESUCCESS, bytes) s2.
Proof.
  apply (procserv_frame_read_after_disjoint_write true 32 sample_world 16
           20 65536 seL4_AllRights [x01; x02; x03] 3 5
           20 65536 seL4_AllRights [x00; x00] 2 0).
  - exact sample_world_mappable.
  - reflexivity.
  - exact sample_world_mappable.
  - reflexivity.
  - lia.
  - lia.
  - rewrite page_size_eq. lia.
  - simpl. lia.
  - lia.
  - lia.
  - rewrite page_size_eq. lia.
  - simpl. lia.
  - lia.
Defined.

(** X16: data goes from one capability to another.  When two capability
    slots hold capabilities to the same physical frame, the first with the
    write right and the second with the read right, what
    [procserv_frame_write] writes through the first is what
    [procserv_frame_read] reads through the second at the same offset. *)
Theorem procserv_frame_write_read_shared
    (CONFIG_ARCH_ARM : bool) w s vpn pa frame1 r1 frame2 r2
    data dst len offset :
  mappable_at w s frame1 vpn pa r1 → Z.testbit r1 0 = true →
  mappable_at w s frame2 vpn pa r2 → Z.testbit r2 1 = true →
  0 ≤ offset → 0 ≤ len → offset + len ≤ REFOS_PAGE_SIZE →
  len ≤ Z.of_nat (length data) → len ≤ Z.of_nat (length dst) →
  ∃ s1 s2,
    procserv_frame_write CONFIG_ARCH_ARM w frame1 data len offset s
      = Done ESUCCESS s1 ∧
    procserv_frame_read CONFIG_ARCH_ARM w frame2 dst len offset s1
      = Done (ESUCCESS, take (Z.to_nat len) data ++ drop (Z.to_nat len) dst) s2.
Proof.
  intros Hmap1 Hwr Hmap2 Hrd Ho Hl Hsum Hdata Hdst. eexists _, _. split.
  - by apply (procserv_frame_write_in_page _ _ _ _ vpn pa r1).
  - rewrite (procserv_frame_read_in_page _ _ _ _ vpn pa r2); try done.
    simpl. do 3 f_equal.
    rewrite <- (load_store_bytes (take (Z.to_nat len) data) (pa + offset)
                  (k_pmem (kernel s))) at 2.
    f_equal. rewrite length_take. lia.
Qed.

Lemma sample_world_shared_mappable :
  let s := set_cnode (<[21 := FrameCap 65536 seL4_PageBits seL4_CanRead]>
                        (k_cnode (kernel sample_world))) sample_world in
  mappable_at 32 s 20 16 65536 seL4_AllRights ∧
  mappable_at 32 s 21 16 65536 seL4_CanRead.
Proof.
  split; (repeat split; try reflexivity; rewrite page_size_eq; lia).
Qed.

Lemma procserv_frame_write_read_shared_witness :
  ∃ s1 s2,
    procserv_frame_write true 32 20 [x01; x02; x03] 3 5
      (set_cnode (<[21 := FrameCap 65536 seL4_PageBits seL4_CanRead]>
                    (k_cnode (kernel sample_world))) sample_world)
      = Done ESUCCESS s1 ∧
    procserv_frame_read true 32 21 [x00; x00; x00] 3 5 s1
      = Done (ESUCCESS,
              take (Z.to_nat 3) [x01; x02; x03] ++ drop (Z.to_nat 3) [x00; x00; x00])
          s2.
Proof.
  apply (procserv_frame_write_read_shared true 32 _ 16 65536
           20 seL4_AllRights 21 seL4_CanRead).
  - exact (proj1 sample_world_shared_mappable).
  - reflexivity.
  - exact (proj2 sample_world_shared_mappable).
  - reflexivity.
  - lia.
  - lia.
  - rewrite page_size_eq. lia.
  - simpl. lia.
  - simpl. lia.
Defined.

(** ** The logical clock, continued *)

(** X17: while the counter stays within 32 bits the clock is strictly
    increasing: from a clock value [t], [n] successive calls of [faketime]
    with [t + n <= 2 ^ 32] return [t], [t + 1], ..., [t + n - 1], so that of
    any two of these calls the later returns the greater value. *)
Theorem faketime_values_increasing n s :
  0 ≤ faketime_ctr (procServ s) →
  faketime_ctr (procServ s) + Z.of_nat n ≤ 2 ^ 32 →
  faketime_values n s = seqZ (faketime_ctr (procServ s)) (Z.of_nat n) ∧
  ∀ i j vi vj,
    faketime_values n s !! i = Some vi →
    faketime_values n s !! j = Some vj →
    (i < j)%nat → vi < vj.
Proof.
  intros Hlo Hhi.
  assert (Hval : faketime_values n s
                 = seqZ (faketime_ctr (procServ s)) (Z.of_nat n)).
  { revert s Hlo Hhi. induction n as [|n IH]; intros s Hlo Hhi; [done|].
    cbn [faketime_values]. rewrite faketime_eq.
    rewrite Nat2Z.inj_succ, seqZ_cons by lia. f_equal.
    replace (Z.pred (Z.succ (Z.of_nat n))) with (Z.of_nat n) by lia.
    destruct n as [|n]; [done|].
    assert (Hctr : uint32 (faketime_ctr (procServ s) + 1)
                   = faketime_ctr (procServ s) + 1).
    { unfold uint32. apply Z.mod_small. lia. }
    rewrite IH; simpl faketime_ctr; rewrite Hctr; [|lia..].
    by rewrite Z.add_1_r. }
  split; [done|]. rewrite Hval. intros i j vi vj Hi Hj Hij.
  apply lookup_seqZ in Hi as [-> _]. apply lookup_seqZ in Hj as [-> _]. lia.
Qed.

Lemma faketime_values_increasing_witness :
  faketime_values 3 sample_world = seqZ (faketime_ctr (procServ sample_world)) (Z.of_nat 3) ∧
  ∀ i j vi vj,
    faketime_values 3 sample_world !! i = Some vi →
    faketime_values 3 sample_world !! j = Some vj →
    (i < j)%nat → vi < vj.
Proof.
  apply (faketime_values_increasing 3 sample_world).
  - simpl. lia.
  - simpl. lia.
Defined.









